(** * CacheMunk: the Redis-backed query cache of [server/src/cache/cache.ts]

    The cache is a closure over an ioredis client and the snappy codec.  Its
    three operations [set], [get] and [invalidate] are embedded below as
    programs that send commands to a model of the Redis keyspace; everything
    the operations do to the backend is visible both in the final keyspace and
    in the list of requests they issued.

    Redis, ioredis and snappy are packages outside the repository.  The
    keyspace follows the documented behaviour of the seven commands that
    cache.ts sends (module [Redis]); the codec is a parameter (class
    [Snappy]).

    Conventions of the embedding:
    - a JavaScript string payload is identified with its UTF-8 bytes, so a
      payload and a [Buffer] are both a Rocq [string]; [Buffer.from(data)]
      and [toString()] are the identity on it and [binaryData.length] is
      [String.length];
    - a TTL is an integer number of seconds ([Z]) within the range Redis
      takes for EX and EXPIRE; a fractional number of seconds, or one beyond
      that range, which Redis refuses, has no counterpart here.  The clock of
      the backend is part of its state and only moves through [Redis.tick];
    - an optional argument is an [option]: [None] is [undefined];
    - the backend is reachable: a command is answered, with a value or with a
      refusal; connection failures have no counterpart here;
    - [process.hrtime] and [console.log] (timing instrumentation) are left out:
      they touch neither the backend nor the returned value. *)

From Stdlib Require Import ZArith Ascii String List Lia.
From stdpp Require Import base option gmap strings list fin_maps.

Local Open Scope string_scope.
Local Open Scope Z_scope.

(** ** The backend: the Redis commands the cache sends *)

Module Redis.

(** A key holds either a string (written by SET) or a set of strings
    (built by SADD). *)
Inductive rvalue : Type :=
| VStr (s : string)
| VSet (members : gset string).

(** [deadline] is the absolute time at which the key expires; [None] is a
    key without expiry. *)
Record entry : Type := Entry { value : rvalue; deadline : option Z }.

Record t : Type := State { now : Z; db : gmap string entry }.

Definition empty : t := State 0 ∅.

Inductive command : Type :=
| SET (key value : string) (ex : Z)     (* SET key value EX ex *)
| GET (key : string)
| GETBUFFER (key : string)               (* GET, reply kept as a Buffer *)
| SADD (key member : string)
| SMEMBERS (key : string)
| EXPIRE (key : string) (seconds : Z)
| DEL (key : string).

(** What the client hands back for a command. *)
Inductive reply : Type :=
| Null
| Str (s : string)
| Buffer (b : string)
| Num (n : Z)
| Arr (l : list string).

Inductive failure : Type :=
| WRONGTYPE        (* operation against a key holding the wrong kind of value *)
| InvalidExpire.   (* invalid expire time in 'set' command *)

Definition alive (clock : Z) (e : entry) : bool :=
  match deadline e with
  | None => true
  | Some d => clock <? d
  end.

(** The entry a command sees at [k]: expired keys are invisible. *)
Definition find (st : t) (k : string) : option entry :=
  match db st !! k with
  | Some e => if alive (now st) e then Some e else None
  | None => None
  end.

Definition put (k : string) (e : entry) (st : t) : t :=
  State (now st) (<[k := e]> (db st)).

Definition remove (k : string) (st : t) : t :=
  State (now st) (delete k (db st)).

(** Time passing at the backend. *)
Definition tick (d : Z) (st : t) : t := State (now st + d) (db st).

(** Remaining time to live of a key, as TTL reports it: [None] when the key
    is missing or has no expiry. *)
Definition ttl (st : t) (k : string) : option Z :=
  match find st k with
  | Some (Entry _ (Some d)) => Some (d - now st)
  | _ => None
  end.

Definition smembers (st : t) (k : string) : gset string :=
  match find st k with
  | Some (Entry (VSet s) _) => s
  | _ => ∅
  end.

(** One command against the keyspace.  Strings and sets live in the same
    keyspace: a key holds one value of one type.
    - SET replaces whatever the key held, of any type, and gives it the new
      expiry; a non-positive EX is refused ("invalid expire time") and
      changes nothing.
    - GET of a key holding a set, and SADD or SMEMBERS of a key holding a
      string, fail with WRONGTYPE and change nothing.
    - SADD creates the set (without expiry) when the key is missing and
      keeps the expiry of an existing set.
    - SMEMBERS of a missing key is the empty list.
    - EXPIRE replaces the expiry of an existing key of any type; with a
      non-positive argument it deletes the key.
    - DEL removes a key of any type. *)
Definition execute (c : command) (st : t) : t * (failure + reply) :=
  match c with
  | SET k v ex =>
      if 0 <? ex
      then (put k (Entry (VStr v) (Some (now st + ex))) st, inr (Str "OK"))
      else (st, inl InvalidExpire)
  | GET k =>
      match find st k with
      | None => (st, inr Null)
      | Some (Entry (VStr s) _) => (st, inr (Str s))
      | Some (Entry (VSet _) _) => (st, inl WRONGTYPE)
      end
  | GETBUFFER k =>
      match find st k with
      | None => (st, inr Null)
      | Some (Entry (VStr s) _) => (st, inr (Buffer s))
      | Some (Entry (VSet _) _) => (st, inl WRONGTYPE)
      end
  | SADD k m =>
      match find st k with
      | None => (put k (Entry (VSet {[ m ]}) None) st, inr (Num 1))
      | Some (Entry (VSet s) d) =>
          (put k (Entry (VSet ({[ m ]} ∪ s)) d) st,
           inr (Num (if decide (m ∈ s) then 0 else 1)))
      | Some (Entry (VStr _) _) => (st, inl WRONGTYPE)
      end
  | SMEMBERS k =>
      match find st k with
      | None => (st, inr (Arr []))
      | Some (Entry (VSet s) _) => (st, inr (Arr (elements s)))
      | Some (Entry (VStr _) _) => (st, inl WRONGTYPE)
      end
  | EXPIRE k secs =>
      match find st k with
      | None => (st, inr (Num 0))
      | Some (Entry v _) =>
          if 0 <? secs
          then (put k (Entry v (Some (now st + secs))) st, inr (Num 1))
          else (remove k st, inr (Num 1))
      end
  | DEL k =>
      (remove k st, inr (Num (match find st k with Some _ => 1 | None => 0 end)))
  end.

(** The key a command works on. *)
Definition target (c : command) : string :=
  match c with
  | SET k _ _ | GET k | GETBUFFER k | SADD k _ | SMEMBERS k
  | EXPIRE k _ | DEL k => k
  end.

(** Whether a live string sits at [k]. *)
Definition is_string (st : t) (k : string) : bool :=
  match find st k with
  | Some (Entry (VStr _) _) => true
  | _ => false
  end.

(** MULTI ... EXEC: the queued commands run in order as one step of the
    backend, no other client's command in between.  Redis has no rollback: a
    command that fails while the queue runs is reported in its slot of the
    result, the commands after it still run and the effects of the commands
    before it stay. *)
Fixpoint exec (queue : list command) (st : t) : t * list (failure + reply) :=
  match queue with
  | [] => (st, [])
  | c :: rest =>
      let '(st1, r) := execute c st in
      let '(st2, rs) := exec rest st1 in
      (st2, r :: rs)
  end.

(** A request is what reaches the backend as one indivisible step: a lone
    command, or a whole MULTI/EXEC transaction. *)
Inductive request : Type :=
| Single (c : command)
| Multi (queue : list command).

Definition commands (r : request) : list command :=
  match r with
  | Single c => [c]
  | Multi q => q
  end.

End Redis.

(** ** The codec: the two functions taken from the snappy package *)

Class Snappy : Type := {
  compress : string -> string;
  uncompress : string -> option string   (* [None]: the bytes are rejected *)
}.

(** Snappy is a lossless compressor. *)
Class SnappyLossless `{Snappy} : Prop :=
  uncompress_compress : forall b : string, uncompress (compress b) = Some b.

(** ** The cache of cache.ts *)

Module Cache.

Import Redis.

(** *** Promises over the backend *)

Inductive error : Type :=
| MaxEntrySizeExceeded        (* new Error('maxEntrySize exceeded') *)
| ReplyError (e : failure)    (* the backend refused a command *)
| UncompressError.            (* snappy refused the stored bytes *)

Inductive settled (A : Type) : Type :=
| Fulfilled (a : A)
| Rejected (e : error).
Arguments Fulfilled {A} a.
Arguments Rejected {A} e.

(** Running an operation settles its promise, leaves the backend in some
    state and has issued some requests, oldest first. *)
Record outcome (A : Type) : Type :=
  Outcome { result : settled A; backend : Redis.t; issued : list request }.
Arguments Outcome {A} result backend issued.
Arguments result {A} o.
Arguments backend {A} o.
Arguments issued {A} o.

Definition async (A : Type) : Type := Redis.t -> outcome A.

#[export] Instance async_ret : MRet async :=
  fun A a st => Outcome (Fulfilled a) st [].

#[export] Instance async_bind : MBind async :=
  fun A B k m st =>
    let o := m st in
    match result o with
    | Fulfilled a =>
        let o' := k a (backend o) in
        Outcome (result o') (backend o') (issued o ++ issued o')
    | Rejected e => Outcome (Rejected e) (backend o) (issued o)
    end.

Definition throw {A : Type} (e : error) : async A :=
  fun st => Outcome (Rejected e) st [].

(** [await redis.cmd(...)]: one command, on its own; a failure reply rejects
    the promise. *)
Definition call (c : command) : async reply :=
  fun st =>
    let '(st', r) := execute c st in
    match r with
    | inr v => Outcome (Fulfilled v) st' [Single c]
    | inl e => Outcome (Rejected (ReplyError e)) st' [Single c]
    end.

(** [await pipeline.exec()] on a [redis.multi()] pipeline: the promise is
    fulfilled with one slot per queued command, failures included (ioredis
    rejects it only when EXEC itself is refused, which needs a command that
    could not be queued; the commands of [command] are all well formed). *)
Definition multi_exec (queue : list command) : async (list (failure + reply)) :=
  fun st =>
    let '(st', rs) := exec queue st in
    Outcome (Fulfilled rs) st' [Multi queue].

(** *** configureCache *)

Inductive client : Type :=
| IORedis          (* an instance of ioredis' Redis *)
| NotRedis.

(** The options object ([interface Config]).  Its two event handlers,
    [onCacheHit] and [onCacheMiss], are destructured and never called: they
    are left out. *)
Record Config : Type := {
  redis : client;
  opt_defaultTtl : option Z;
  opt_maxEntrySize : option Z;
  opt_compression : option bool
}.

(** The constants the closure captures. *)
Record Cache : Type := {
  compression : bool;
  defaultTtl : Z;
  maxEntrySize : Z
}.

Definition positive_or (o : option Z) (fallback : Z) : Z :=
  match o with
  | Some n => if 0 <? n then n else fallback
  | None => fallback
  end.

(** [None] is the thrown [Error('ioredis client not found')]. *)
Definition configureCache (options : Config) : option Cache :=
  let compression :=
    match opt_compression options with Some true => true | _ => false end in
  match redis options with
  | NotRedis => None
  | IORedis =>
      let defaultTtl := positive_or (opt_defaultTtl options) 3600 in
      let maxEntrySize := positive_or (opt_maxEntrySize options) 5000000 in
      Some {| compression := compression;
              defaultTtl := defaultTtl;
              maxEntrySize := maxEntrySize |}
  end.

Definition dependencyKey (dependency : string) : string :=
  "dependency:" +:+ dependency.

Section Operations.

Context `{Snappy}.
Variable cache : Cache.

(** *** set (cache.ts, lines 40-95) *)

(** What the [forEach] of [set] queues for one dependency. *)
Definition registration (queryKey : string) (ttlInSeconds : Z)
    (dependency : string) : list command :=
  let dependencyKey := dependencyKey dependency in
  [SADD dependencyKey queryKey; EXPIRE dependencyKey ttlInSeconds].

(** The commands queued on the pipeline of [set]: the store of the query
    result, then the registrations in the order of the list. *)
Definition pipeline (queryKey stored : string) (dependencies : list string)
    (ttlInSeconds : Z) : list command :=
  SET queryKey stored ttlInSeconds
  :: flat_map (registration queryKey ttlInSeconds) dependencies.

Definition set (queryKey data : string) (dependencies : option (list string))
    (ttlInSeconds : option Z) : async unit :=
  let ttlInSeconds := default (defaultTtl cache) ttlInSeconds in
  compressedData ←
    (if compression cache then
       let binaryData := data in
       if maxEntrySize cache <? Z.of_nat (String.length binaryData)
       then throw MaxEntrySizeExceeded
       else mret (Some (compress binaryData))
     else mret None);
  match dependencies with
  | Some ((_ :: _) as dependencies) =>
      _ ← multi_exec
            (match compression cache, compressedData with
             | true, Some compressedData =>
                 pipeline queryKey compressedData dependencies ttlInSeconds
             | _, _ =>
                 pipeline queryKey data dependencies ttlInSeconds
             end);
      mret tt
  | _ =>
      _ ← (match compression cache, compressedData with
           | true, Some compressedData =>
               call (SET queryKey compressedData ttlInSeconds)
           | _, _ =>
               call (SET queryKey data ttlInSeconds)
           end);
      mret tt
  end.

(** *** get (cache.ts, lines 98-143) *)

(** The fulfilled value is [Null] on a miss and [Str payload] on a hit. *)
Definition get (queryKey : string) : async reply :=
  data ← (if compression cache
          then call (GETBUFFER queryKey)
          else call (GET queryKey));
  match data with
  | Null => mret Null
  | Buffer b =>
      match uncompress b with
      | Some binaryData => mret (Str binaryData)
      | None => throw UncompressError
      end
  | _ => mret data
  end.

(** *** invalidate (cache.ts, lines 146-169) *)

Definition members (r : reply) : list string :=
  match r with
  | Arr l => l
  | _ => []
  end.

Definition invalidate (dependency : string) : async unit :=
  let dependencyKey := dependencyKey dependency in
  smembers ← call (SMEMBERS dependencyKey);
  let queriesToInvalidate := members smembers in
  if (0 <? length queriesToInvalidate)%nat
  then _ ← multi_exec (map DEL queriesToInvalidate ++ [DEL dependencyKey]);
       mret tt
  else _ ← call (DEL dependencyKey);
       mret tt.

(** *** Vocabulary of the statements *)

(** The bytes [set] hands to the backend for a payload. *)
Definition stored (data : string) : string :=
  if compression cache then compress data else data.

(** The payload passes the size check of [set]; there is none without
    compression. *)
Definition fits (data : string) : Prop :=
  compression cache = true ->
  Z.of_nat (String.length data) <= maxEntrySize cache.

(** The TTL [set] applies. *)
Definition ttl_of (ttlInSeconds : option Z) : Z :=
  default (defaultTtl cache) ttlInSeconds.

End Operations.

(** The dependency record of [name] lists [queryKey] and expires [T] seconds
    after [clock]. *)
Definition registered (queryKey : string) (T : Z) (name : string) (clock : Z)
    (st : t) : Prop :=
  exists s : gset string,
    db st !! dependencyKey name = Some (Entry (VSet s) (Some (clock + T))) /\
    queryKey ∈ s.

End Cache.

(** ** The two awaits of [invalidate]

    [invalidate] awaits the backend twice (cache.ts, lines 151 and 160/163):
    once for [smembers], once for the deletion.  Between the two, other
    operations of the single-threaded program may run.  The two halves are
    given here on their own; [invalidate] is the first followed by the
    second. *)

Module Steps.

Import Redis Cache.

(** Up to and including [await redis.smembers(dependencyKey)]. *)
Definition invalidate_read (dependency : string) : async (list string) :=
  let dependencyKey := dependencyKey dependency in
  smembers ← call (SMEMBERS dependencyKey);
  mret (members smembers).

(** From [if (queriesToInvalidate.length > 0)] on. *)
Definition invalidate_delete (dependency : string)
    (queriesToInvalidate : list string) : async unit :=
  let dependencyKey := dependencyKey dependency in
  if (0 <? length queriesToInvalidate)%nat
  then _ ← multi_exec (map DEL queriesToInvalidate ++ [DEL dependencyKey]);
       mret tt
  else _ ← call (DEL dependencyKey);
       mret tt.

End Steps.

(** ** Concrete caches and backends used in the examples *)

Module Sample.

Import Redis Cache.

(** A stand-in codec: compression frames the payload behind one tag byte,
    decompression refuses bytes that lack the tag. *)
Definition frame (b : string) : string := String "s"%char b.

Definition unframe (b : string) : option string :=
  match b with
  | String "s"%char rest => Some rest
  | _ => None
  end.

#[export] Instance framing : Snappy := {| compress := frame; uncompress := unframe |}.

(** The cache of redisClient.ts: [configureCache({ redis, compression: false })]. *)
Definition plain : Cache :=
  {| compression := false; defaultTtl := 3600; maxEntrySize := 5000000 |}.

(** [compression: true, maxEntrySize: 10]. *)
Definition small_compressing : Cache :=
  {| compression := true; defaultTtl := 3600; maxEntrySize := 10 |}.

(** [compression: false, maxEntrySize: 10]. *)
Definition small_plain : Cache :=
  {| compression := false; defaultTtl := 3600; maxEntrySize := 10 |}.

(** The backend left by one operation run on a backend. *)
Definition after {A : Type} (op : async A) (st : t) : t := backend (op st).

End Sample.

(** ** The cache exported by redisClient.ts *)

Module RedisClient.

Import Cache.

(** [{ redis, compression: false }], [redis] being [new Redis(...)]. *)
Definition options : Config :=
  {| redis := IORedis;
     opt_defaultTtl := None;
     opt_maxEntrySize := None;
     opt_compression := Some false |}.

(** [const cache = configureCache({ redis, compression: false })]. *)
Definition cache : option Cache := configureCache options.

End RedisClient.

(** ** Facts about the backend *)

Module RedisFacts.

Import Redis.

(** No command moves the clock. *)
Lemma execute_now (c : command) (st : t) : now (execute c st).1 = now st.
Proof. destruct c; simpl; repeat case_match; reflexivity. Qed.

(** A command leaves every key but its own alone. *)
Lemma execute_frame (c : command) (st : t) (k : string) :
  k ≠ target c -> db (execute c st).1 !! k = db st !! k.
Proof.
  intros Hk. destruct c; simpl in *; repeat case_match; simpl;
    rewrite ?lookup_insert_ne, ?lookup_delete_ne by congruence; reflexivity.
Qed.

Lemma exec_cons (c : command) (q : list command) (st : t) :
  exec (c :: q) st =
  ((exec q (execute c st).1).1, (execute c st).2 :: (exec q (execute c st).1).2).
Proof.
  simpl. destruct (execute c st) as [st1 r]. simpl.
  destruct (exec q st1) as [st2 rs]. reflexivity.
Qed.

Lemma exec_app (q1 q2 : list command) (st : t) :
  (exec (q1 ++ q2) st).1 = (exec q2 (exec q1 st).1).1.
Proof.
  revert st. induction q1 as [|c q1 IH]; intros st; [reflexivity|].
  rewrite <- app_comm_cons, !exec_cons. simpl. apply IH.
Qed.

Lemma exec_now (q : list command) (st : t) : now (exec q st).1 = now st.
Proof.
  revert st. induction q as [|c q IH]; intros st; [reflexivity|].
  rewrite exec_cons. simpl. rewrite IH. apply execute_now.
Qed.

Lemma exec_frame (q : list command) (st : t) (k : string) :
  Forall (fun c => k ≠ target c) q -> db (exec q st).1 !! k = db st !! k.
Proof.
  revert st. induction q as [|c q IH]; intros st Hq; [reflexivity|].
  inversion Hq; subst. rewrite exec_cons. simpl.
  rewrite IH by assumption. apply execute_frame. assumption.
Qed.

(** What a command sees at a key depends on the clock and on that key only. *)
Lemma find_ext (st st' : t) (k : string) :
  now st' = now st -> db st' !! k = db st !! k -> find st' k = find st k.
Proof. intros Hn Hk. unfold find. rewrite Hn, Hk. reflexivity. Qed.

Lemma find_None_absent (st : t) (k : string) :
  db st !! k = None -> find st k = None.
Proof. intros Hk. unfold find. rewrite Hk. reflexivity. Qed.

Lemma find_None_expired (st : t) (k : string) (v : rvalue) (d : Z) :
  db st !! k = Some (Entry v (Some d)) -> d <= now st -> find st k = None.
Proof.
  intros Hk Hd. unfold find, alive. rewrite Hk. simpl.
  destruct (Z.ltb_spec (now st) d); [lia | reflexivity].
Qed.

Lemma find_Some_live (st : t) (k : string) (v : rvalue) (d : Z) :
  db st !! k = Some (Entry v (Some d)) -> now st < d ->
  find st k = Some (Entry v (Some d)).
Proof.
  intros Hk Hd. unfold find, alive. rewrite Hk. simpl.
  destruct (Z.ltb_spec (now st) d); [reflexivity | lia].
Qed.

Lemma find_Some_db (st : t) (k : string) (e : entry) :
  find st k = Some e -> db st !! k = Some e.
Proof.
  unfold find. destruct (db st !! k) as [e'|]; [|discriminate].
  destruct (alive (now st) e'); congruence.
Qed.

End RedisFacts.

(** ** Facts about [set] *)

Module SetFacts.

Import Redis Cache RedisFacts.

Lemma dependencyKey_inj (a b : string) :
  dependencyKey a = dependencyKey b -> a = b.
Proof. unfold dependencyKey. apply (inj (String.app "dependency:")). Qed.

(** The defaults of [configureCache] keep the TTL and the size limit
    positive. *)
Lemma configureCache_positive (options : Config) (cache : Cache) :
  configureCache options = Some cache ->
  0 < defaultTtl cache /\ 0 < maxEntrySize cache.
Proof.
  unfold configureCache. destruct (redis options); [|discriminate].
  intros [= <-]. simpl. unfold positive_or.
  split.
  - destruct (opt_defaultTtl options) as [n|]; [|lia].
    destruct (Z.ltb_spec 0 n); lia.
  - destruct (opt_maxEntrySize options) as [n|]; [|lia].
    destruct (Z.ltb_spec 0 n); lia.
Qed.

Section WithCache.

Context `{Snappy}.
Variable cache : Cache.

(** A payload over the limit, compression on: rejected before anything is
    sent. *)
Lemma set_too_large queryKey data dependencies ttlInSeconds st :
  compression cache = true ->
  maxEntrySize cache < Z.of_nat (String.length data) ->
  set cache queryKey data dependencies ttlInSeconds st
  = Outcome (Rejected MaxEntrySizeExceeded) st [].
Proof.
  intros Hc Hlen. unfold set, mbind, async_bind, throw. rewrite Hc.
  destruct (Z.ltb_spec (maxEntrySize cache) (Z.of_nat (String.length data)));
    [reflexivity | lia].
Qed.

(** With dependencies, [set] is one transaction and its promise is
    fulfilled whatever the slots say. *)
Lemma set_with_dependencies queryKey data d ds ttlInSeconds st :
  fits cache data ->
  let queue := pipeline queryKey (stored cache data) (d :: ds)
                        (ttl_of cache ttlInSeconds) in
  set cache queryKey data (Some (d :: ds)) ttlInSeconds st
  = Outcome (Fulfilled tt) (exec queue st).1 [Multi queue].
Proof.
  intros Hfit queue. subst queue. unfold fits, stored, ttl_of in *.
  unfold set, mbind, async_bind, mret, async_ret, multi_exec, throw.
  destruct (compression cache) eqn:Hc.
  - destruct (Z.ltb_spec (maxEntrySize cache) (Z.of_nat (String.length data)));
      [specialize (Hfit eq_refl); lia|].
    cbn [result backend issued].
    destruct (exec _ st) as [st' rs]. reflexivity.
  - cbn [result backend issued].
    destruct (exec _ st) as [st' rs]. reflexivity.
Qed.

(** Without dependencies, [set] is the lone SET. *)
Lemma set_alone queryKey data dependencies ttlInSeconds st :
  fits cache data ->
  dependencies = None \/ dependencies = Some [] ->
  let c := SET queryKey (stored cache data) (ttl_of cache ttlInSeconds) in
  set cache queryKey data dependencies ttlInSeconds st
  = Outcome (match (execute c st).2 with
             | inr _ => Fulfilled tt
             | inl e => Rejected (ReplyError e)
             end) (execute c st).1 [Single c].
Proof.
  intros Hfit Hdeps c. subst c. unfold fits, stored, ttl_of in *.
  unfold set, mbind, async_bind, mret, async_ret, call, throw.
  destruct (compression cache) eqn:Hc.
  - destruct (Z.ltb_spec (maxEntrySize cache) (Z.of_nat (String.length data)));
      [specialize (Hfit eq_refl); lia|].
    cbn [result backend issued].
    destruct Hdeps as [-> | ->];
      destruct (execute _ st) as [st' [e|v]]; reflexivity.
  - cbn [result backend issued].
    destruct Hdeps as [-> | ->];
      destruct (execute _ st) as [st' [e|v]]; reflexivity.
Qed.

(** Whatever the dependencies, the backend ends where the queue of
    [pipeline] takes it, and that queue went out as one request. *)
Lemma set_backend queryKey data dependencies ttlInSeconds st :
  fits cache data ->
  backend (set cache queryKey data dependencies ttlInSeconds st)
  = (exec (pipeline queryKey (stored cache data) (default [] dependencies)
                    (ttl_of cache ttlInSeconds)) st).1.
Proof.
  intros Hfit. destruct dependencies as [[|d ds]|].
  - rewrite set_alone by auto. cbn [backend].
    change (default [] _) with (@nil string). unfold pipeline.
    cbn [flat_map]. rewrite exec_cons. reflexivity.
  - rewrite set_with_dependencies by assumption. reflexivity.
  - rewrite set_alone by auto. cbn [backend].
    change (default [] _) with (@nil string). unfold pipeline.
    cbn [flat_map]. rewrite exec_cons. reflexivity.
Qed.

Lemma set_issued queryKey data dependencies ttlInSeconds st :
  fits cache data ->
  let queue := pipeline queryKey (stored cache data) (default [] dependencies)
                        (ttl_of cache ttlInSeconds) in
  exists req : request,
    issued (set cache queryKey data dependencies ttlInSeconds st) = [req] /\
    commands req = queue /\
    (default [] dependencies ≠ [] -> req = Multi queue).
Proof.
  intros Hfit queue. subst queue. destruct dependencies as [[|d ds]|].
  - rewrite set_alone by auto. eexists. split; [reflexivity|].
    split; [reflexivity|]. intros Hne. contradiction Hne. reflexivity.
  - rewrite set_with_dependencies by assumption. eexists.
    split; [reflexivity|]. split; reflexivity.
  - rewrite set_alone by auto. eexists. split; [reflexivity|].
    split; [reflexivity|]. intros Hne. contradiction Hne. reflexivity.
Qed.

Lemma set_result queryKey data dependencies ttlInSeconds st :
  fits cache data ->
  default [] dependencies ≠ [] \/ 0 < ttl_of cache ttlInSeconds ->
  result (set cache queryKey data dependencies ttlInSeconds st) = Fulfilled tt.
Proof.
  intros Hfit Hok.
  assert (Halone : 0 < ttl_of cache ttlInSeconds ->
    (execute (SET queryKey (stored cache data) (ttl_of cache ttlInSeconds)) st).2
    = inr (Str "OK")).
  { intros HT. simpl.
    destruct (Z.ltb_spec 0 (ttl_of cache ttlInSeconds)); [reflexivity | lia]. }
  destruct dependencies as [[|d ds]|].
  - rewrite set_alone by auto. cbn [result].
    destruct Hok as [Hne | HT]; [contradiction Hne; reflexivity|].
    rewrite Halone by assumption. reflexivity.
  - rewrite set_with_dependencies by assumption. reflexivity.
  - rewrite set_alone by auto. cbn [result].
    destruct Hok as [Hne | HT]; [contradiction Hne; reflexivity|].
    rewrite Halone by assumption. reflexivity.
Qed.

End WithCache.

(** *** The transaction of [set], command by command *)

Section Pipeline.

Variables (queryKey v : string) (T : Z).
Hypothesis T_positive : 0 < T.

(** The two commands queued for one dependency. *)
#[local] Abbreviation registration := (Cache.registration queryKey T).

Lemma pipeline_unfold (dependencies : list string) :
  pipeline queryKey v dependencies T
  = SET queryKey v T :: flat_map registration dependencies.
Proof. reflexivity. Qed.

(** Once the payload is stored, registering under any dependency leaves it
    as it is: a dependency record that collides with the query key is refused
    by SADD, and its EXPIRE restates the same deadline. *)
Lemma registration_keeps_payload (dependency : string) (st : t) :
  db st !! queryKey = Some (Entry (VStr v) (Some (now st + T))) ->
  db (exec (registration dependency) st).1 !! queryKey
  = Some (Entry (VStr v) (Some (now st + T))).
Proof.
  intros Hk. destruct (decide (queryKey = dependencyKey dependency)) as [Heq|Hne].
  - assert (Hf : find st (dependencyKey dependency)
                 = Some (Entry (VStr v) (Some (now st + T)))).
    { rewrite <- Heq. apply find_Some_live; [assumption | lia]. }
    unfold registration. rewrite <- Heq in *. simpl. rewrite Hf. simpl. rewrite Hf.
    destruct (Z.ltb_spec 0 T); [|lia]. simpl. apply lookup_insert_eq.
  - rewrite exec_frame; [assumption|].
    repeat constructor; simpl; assumption.
Qed.

Lemma registrations_keep_payload (dependencies : list string) (st : t) :
  db st !! queryKey = Some (Entry (VStr v) (Some (now st + T))) ->
  db (exec (flat_map registration dependencies) st).1 !! queryKey
  = Some (Entry (VStr v) (Some (now st + T))).
Proof.
  revert st. induction dependencies as [|d ds IH]; intros st Hk; [assumption|].
  change (flat_map registration (d :: ds))
    with (registration d ++ flat_map registration ds)%list.
  rewrite exec_app.
  pose proof (exec_now (registration d) st) as Hn.
  rewrite <- Hn. apply IH. rewrite Hn.
  apply registration_keeps_payload. assumption.
Qed.

(** After the transaction the query key holds the payload, expiring [T]
    seconds from now. *)
Lemma pipeline_stores (dependencies : list string) (st : t) :
  let st' := (exec (pipeline queryKey v dependencies T) st).1 in
  now st' = now st /\
  db st' !! queryKey = Some (Entry (VStr v) (Some (now st + T))).
Proof.
  intros st'. split; [apply exec_now|]. subst st'.
  rewrite pipeline_unfold, exec_cons. cbn [fst].
  set (st1 := (execute (SET queryKey v T) st).1).
  assert (Hn : now st1 = now st) by apply execute_now.
  rewrite <- Hn. apply registrations_keep_payload. rewrite Hn.
  subst st1. simpl. destruct (Z.ltb_spec 0 T); [|lia]. simpl.
  apply lookup_insert_eq.
Qed.

Lemma registered_not_string (name : string) (st : t) :
  registered queryKey T name (now st) st -> is_string st (dependencyKey name) = false.
Proof.
  intros (s & Hs & _). unfold is_string.
  rewrite (find_Some_live _ _ _ _ Hs) by lia. reflexivity.
Qed.

Lemma registration_registers (name : string) (st : t) :
  is_string st (dependencyKey name) = false ->
  registered queryKey T name (now st) (exec (registration name) st).1.
Proof.
  unfold is_string, registered, registration. intros Hns. simpl.
  destruct (find st (dependencyKey name)) as [[[x|s] d]|] eqn:Hf;
    [discriminate| |].
  - simpl. unfold find at 1. simpl. rewrite lookup_insert_eq.
    assert (Ha : alive (now st) (Entry (VSet s) d) = true).
    { unfold find in Hf. destruct (db st !! dependencyKey name) as [e|];
        [|discriminate].
      destruct (alive (now st) e) eqn:Ha; [|discriminate]. congruence. }
    unfold alive in *. simpl in *. rewrite Ha.
    destruct (Z.ltb_spec 0 T); [|lia]. simpl.
    exists ({[queryKey]} ∪ s). rewrite lookup_insert_eq. split; [reflexivity|].
    set_solver.
  - simpl. unfold find at 1. simpl. rewrite lookup_insert_eq. simpl.
    destruct (Z.ltb_spec 0 T); [|lia]. simpl.
    exists {[queryKey]}. rewrite lookup_insert_eq. split; [reflexivity|].
    set_solver.
Qed.

Lemma registration_other (name dependency : string) (st : t) (k : string) :
  k ≠ dependencyKey dependency ->
  db (exec (registration dependency) st).1 !! k = db st !! k.
Proof.
  intros Hne. apply exec_frame. repeat constructor; simpl; assumption.
Qed.

Lemma registrations_register (name : string) (dependencies : list string) (st : t) :
  registered queryKey T name (now st) st \/
    (name ∈ dependencies /\ is_string st (dependencyKey name) = false) ->
  registered queryKey T name (now st) (exec (flat_map registration dependencies) st).1.
Proof.
  revert st. induction dependencies as [|d ds IH]; intros st Hst.
  - destruct Hst as [Hr | [Hin _]]; [assumption | set_solver].
  - change (flat_map registration (d :: ds))
      with (registration d ++ flat_map registration ds)%list.
    rewrite exec_app.
    pose proof (exec_now (registration d) st) as Hn.
    rewrite <- Hn. apply IH. rewrite Hn.
    destruct (decide (d = name)) as [->|Hd].
    + left. apply registration_registers.
      destruct Hst as [Hr | [_ Hns]]; [|assumption].
      apply registered_not_string. assumption.
    + assert (Hk : dependencyKey name ≠ dependencyKey d).
      { intros Heq. apply dependencyKey_inj in Heq. congruence. }
      destruct Hst as [(s & Hs & Hin) | [Hin Hns]].
      * left. exists s. split; [|assumption].
        rewrite registration_other; assumption.
      * right. split; [apply elem_of_cons in Hin as [?|?]; [congruence|assumption]|].
        unfold is_string in *.
        rewrite (find_ext st); [assumption | assumption |].
        apply registration_other; assumption.
Qed.

(** After the transaction every named dependency lists the query key and
    expires together with it, unless its record collides with the query key
    or is a plain string. *)
Lemma pipeline_registers (name : string) (dependencies : list string) (st : t) :
  name ∈ dependencies ->
  queryKey ≠ dependencyKey name ->
  is_string st (dependencyKey name) = false ->
  registered queryKey T name (now st) (exec (pipeline queryKey v dependencies T) st).1.
Proof.
  intros Hin Hne Hns. rewrite pipeline_unfold, exec_cons. cbn [fst].
  set (st1 := (execute (SET queryKey v T) st).1).
  assert (Hn : now st1 = now st) by apply execute_now.
  rewrite <- Hn. apply registrations_register. right. split; [assumption|].
  unfold is_string in *. rewrite (find_ext st); [assumption | assumption |].
  apply execute_frame. simpl. congruence.
Qed.

End Pipeline.

End SetFacts.

(** ** Facts about [invalidate] and [get] *)

Module ReadFacts.

Import Redis Cache RedisFacts.

(** A run of DEL commands removes the keys it names and nothing else. *)
Lemma exec_dels (l : list string) (st : t) (k : string) :
  db (exec (map DEL l) st).1 !! k
  = if decide (k ∈ l) then None else db st !! k.
Proof.
  revert st. induction l as [|a l IH]; intros st.
  - reflexivity.
  - change (map DEL (a :: l)) with (DEL a :: map DEL l).
    rewrite exec_cons. cbn [fst]. rewrite IH. simpl.
    destruct (decide (k = a)) as [->|Hne].
    + rewrite lookup_delete_eq.
      repeat case_decide; try reflexivity; exfalso;
        rewrite ?elem_of_cons in *; intuition congruence.
    + rewrite lookup_delete_ne by congruence.
      repeat case_decide; try reflexivity; exfalso;
        rewrite ?elem_of_cons in *; intuition congruence.
Qed.

Lemma exec_del_batch (l : list string) (dk : string) (st : t) (k : string) :
  db (exec (map DEL l ++ [DEL dk]) st).1 !! k
  = if decide (k ∈ l \/ k = dk) then None else db st !! k.
Proof.
  rewrite exec_app. simpl.
  destruct (decide (k = dk)) as [->|Hne].
  - rewrite lookup_delete_eq. case_decide; [reflexivity | tauto].
  - rewrite lookup_delete_ne by congruence. rewrite exec_dels.
    repeat case_decide; tauto.
Qed.

Lemma call_run (c : command) (st : t) :
  call c st
  = Outcome (match (execute c st).2 with
             | inr v => Fulfilled v
             | inl e => Rejected (ReplyError e)
             end) (execute c st).1 [Single c].
Proof. unfold call. destruct (execute c st) as [st' [e|v]]; reflexivity. Qed.

Lemma multi_exec_run (queue : list command) (st : t) :
  multi_exec queue st
  = Outcome (Fulfilled (exec queue st).2) (exec queue st).1 [Multi queue].
Proof. unfold multi_exec. destruct (exec queue st). reflexivity. Qed.

Lemma remove_absent (k : string) (st : t) :
  db st !! k = None -> remove k st = st.
Proof.
  intros Hk. destruct st as [n m]. unfold remove. simpl in *.
  rewrite delete_id by assumption. reflexivity.
Qed.

(** [invalidate] against a dependency record that is a plain string: the
    SMEMBERS is refused, the promise rejected, nothing deleted. *)
Lemma invalidate_refused (name : string) (st : t) :
  is_string st (dependencyKey name) = true ->
  invalidate name st
  = Outcome (Rejected (ReplyError WRONGTYPE)) st
            [Single (SMEMBERS (dependencyKey name))].
Proof.
  unfold is_string, invalidate, mbind, async_bind, call. simpl.
  destruct (find st (dependencyKey name)) as [[[x|s] d]|]; try discriminate.
  reflexivity.
Qed.

(** Otherwise it deletes the members of the record and the record. *)
Lemma invalidate_spec (name : string) (st : t) :
  is_string st (dependencyKey name) = false ->
  let o := invalidate name st in
  result o = Fulfilled tt /\
  now (backend o) = now st /\
  forall k : string,
    db (backend o) !! k
    = if decide (k ∈ smembers st (dependencyKey name) \/ k = dependencyKey name)
      then None else db st !! k.
Proof.
  unfold is_string, smembers, invalidate, mbind, async_bind.
  rewrite call_run. simpl.
  destruct (find st (dependencyKey name)) as [[[x|s] d]|] eqn:Hf;
    [discriminate | |]; intros _; cbn [result backend issued members fst snd].
  - destruct (elements s) as [|a l] eqn:Hel.
    + apply elements_empty_inv in Hel. apply leibniz_equiv in Hel. subst s.
      simpl. split; [reflexivity|]. split; [reflexivity|]. intros k.
      destruct (decide (k = dependencyKey name)) as [->|Hne].
      * rewrite lookup_delete_eq. case_decide; [reflexivity | tauto].
      * rewrite lookup_delete_ne by congruence.
        case_decide as Hk; [|reflexivity].
        destruct Hk as [Hk|Hk]; [|contradiction].
        exfalso. exact (not_elem_of_empty _ Hk).
    + change (0 <? length (a :: l))%nat with true. cbv beta iota.
      rewrite multi_exec_run. cbn [result backend issued].
      split; [reflexivity|]. split; [apply exec_now|].
      intros k. rewrite exec_del_batch, <- Hel.
      repeat case_decide; try reflexivity; exfalso;
        rewrite elem_of_elements in *; tauto.
  - simpl. split; [reflexivity|]. split; [reflexivity|]. intros k.
    destruct (decide (k = dependencyKey name)) as [->|Hne].
    + rewrite lookup_delete_eq. case_decide; [reflexivity | tauto].
    + rewrite lookup_delete_ne by congruence.
      case_decide as Hk; [|reflexivity].
      destruct Hk as [Hk|Hk]; [|contradiction].
      exfalso. exact (not_elem_of_empty _ Hk).
Qed.

(** Keys that are neither members of the record nor the record itself are
    left as they were, whether [invalidate] succeeds or not. *)
Lemma invalidate_frame (name : string) (st : t) (k : string) :
  k ∉ smembers st (dependencyKey name) ->
  k ≠ dependencyKey name ->
  db (backend (invalidate name st)) !! k = db st !! k.
Proof.
  intros Hk Hne. destruct (is_string st (dependencyKey name)) eqn:Hs.
  - rewrite invalidate_refused by assumption. reflexivity.
  - destruct (invalidate_spec name st Hs) as (_ & _ & Hdb).
    rewrite Hdb. case_decide; [tauto | reflexivity].
Qed.

(** Invalidating a dependency that has no record changes nothing. *)
Lemma invalidate_absent (name : string) (st : t) :
  db st !! dependencyKey name = None ->
  invalidate name st
  = Outcome (Fulfilled tt) st
            [Single (SMEMBERS (dependencyKey name));
             Single (DEL (dependencyKey name))].
Proof.
  intros Hk. unfold invalidate, mbind, async_bind, call. simpl.
  rewrite (find_None_absent _ _ Hk). simpl.
  rewrite remove_absent by assumption. reflexivity.
Qed.

Section WithCache.

Context `{Snappy}.
Variable cache : Cache.

(** A miss. *)
Lemma get_miss (queryKey : string) (st : t) :
  find st queryKey = None ->
  get cache queryKey st
  = Outcome (Fulfilled Null) st
            [Single (if compression cache then GETBUFFER queryKey
                     else GET queryKey)].
Proof.
  intros Hf. unfold get, mbind, async_bind, call.
  destruct (compression cache); simpl; rewrite Hf; reflexivity.
Qed.

(** A hit on what [set] stored. *)
Lemma get_hit (queryKey data : string) (d : option Z) (st : t) :
  (compression cache = true -> uncompress (stored cache data) = Some data) ->
  find st queryKey = Some (Entry (VStr (stored cache data)) d) ->
  get cache queryKey st
  = Outcome (Fulfilled (Str data)) st
            [Single (if compression cache then GETBUFFER queryKey
                     else GET queryKey)].
Proof.
  intros Hrt Hf. unfold get, mbind, async_bind, call, stored in *.
  destruct (compression cache); simpl; rewrite Hf; simpl.
  - rewrite Hrt by reflexivity. reflexivity.
  - reflexivity.
Qed.

End WithCache.

End ReadFacts.

(** ** Sequences of operations *)

Module Sequences.

Import Redis Cache RedisFacts SetFacts ReadFacts.

Section WithCache.

Context `{Snappy}.
Variable cache : Cache.

(** A [get] that follows a [set] while the entry lives. *)
Lemma set_then_get queryKey data dependencies ttlInSeconds st (d : Z) :
  fits cache data ->
  (compression cache = true -> uncompress (compress data) = Some data) ->
  0 <= d < ttl_of cache ttlInSeconds ->
  let o := set cache queryKey data dependencies ttlInSeconds st in
  result o = Fulfilled tt /\
  db (backend o) !! queryKey
  = Some (Entry (VStr (stored cache data))
                (Some (now st + ttl_of cache ttlInSeconds))) /\
  get cache queryKey (tick d (backend o))
  = Outcome (Fulfilled (Str data)) (tick d (backend o))
            [Single (if compression cache then GETBUFFER queryKey
                     else GET queryKey)].
Proof.
  intros Hfit Hrt Hd o. subst o.
  assert (HT : 0 < ttl_of cache ttlInSeconds) by lia.
  split; [apply set_result; auto|].
  rewrite set_backend by assumption.
  destruct (pipeline_stores queryKey (stored cache data)
              (ttl_of cache ttlInSeconds) HT (default [] dependencies) st)
    as [Hn Hk].
  split; [assumption|].
  apply get_hit with (d := Some (now st + ttl_of cache ttlInSeconds)).
  - intros Hc. unfold stored. rewrite Hc. auto.
  - apply find_Some_live; [assumption|]. unfold tick. cbn [now].
    rewrite Hn. lia.
Qed.

(** An [invalidate] that follows a [set] naming the dependency, and the
    [get] after it; [d1] and [d2] are the seconds that pass in between. *)
Lemma set_then_invalidate queryKey data dependencies ttlInSeconds name st
    (d1 d2 : Z) :
  fits cache data ->
  0 < ttl_of cache ttlInSeconds ->
  name ∈ dependencies ->
  queryKey ≠ dependencyKey name ->
  is_string st (dependencyKey name) = false ->
  0 <= d1 -> 0 <= d2 ->
  let st1 := backend (set cache queryKey data (Some dependencies) ttlInSeconds st) in
  let o := invalidate name (tick d1 st1) in
  result o = Fulfilled tt /\
  db (backend o) !! dependencyKey name = None /\
  find (tick d2 (backend o)) queryKey = None.
Proof.
  intros Hfit HT Hin Hne Hns Hd1 Hd2 st1 o. subst o st1.
  rewrite set_backend by assumption. cbn [default from_option id].
  set (T := ttl_of cache ttlInSeconds) in *.
  set (st1 := (exec (pipeline queryKey (stored cache data) dependencies T) st).1).
  destruct (pipeline_stores queryKey (stored cache data) T HT dependencies st)
    as [Hn Hk].
  destruct (pipeline_registers queryKey (stored cache data) T HT
              name dependencies st Hin Hne Hns) as (s & Hs & Hmem).
  fold st1 in Hn, Hk, Hs.
  assert (Hns2 : is_string (tick d1 st1) (dependencyKey name) = false).
  { unfold is_string, find. simpl. rewrite Hs.
    destruct (alive _ _); reflexivity. }
  destruct (invalidate_spec name (tick d1 st1) Hns2) as (Hres & Hnow & Hdb).
  split; [assumption|]. split.
  - rewrite Hdb. case_decide; [reflexivity | tauto].
  - destruct (Z.lt_ge_cases d1 T) as [Hlive | Hdead].
    + apply find_None_absent. simpl. rewrite Hdb.
      assert (Hf : find (tick d1 st1) (dependencyKey name)
                   = Some (Entry (VSet s) (Some (now st + T)))).
      { apply find_Some_live; [assumption|]. unfold tick. cbn [now].
        rewrite Hn. lia. }
      unfold smembers. rewrite Hf.
      case_decide; [reflexivity | tauto].
    + destruct (db (backend (invalidate name (tick d1 st1))) !! queryKey)
        as [e|] eqn:He; [|apply find_None_absent; assumption].
      rewrite Hdb in He. case_decide; [discriminate|]. simpl in He.
      rewrite Hk in He. inversion He; subst e.
      apply find_None_expired with (v := VStr (stored cache data))
                                   (d := now st + T).
      * simpl. rewrite Hdb. case_decide; [tauto | assumption].
      * simpl. rewrite Hnow. simpl. lia.
Qed.

(** After a [set] naming the dependency, its record lists the query key. *)
Lemma set_registers queryKey data dependencies ttlInSeconds name st :
  fits cache data ->
  0 < ttl_of cache ttlInSeconds ->
  name ∈ dependencies ->
  queryKey ≠ dependencyKey name ->
  is_string st (dependencyKey name) = false ->
  let st1 := backend (set cache queryKey data (Some dependencies) ttlInSeconds st) in
  queryKey ∈ smembers st1 (dependencyKey name) /\
  ttl st1 (dependencyKey name) = Some (ttl_of cache ttlInSeconds).
Proof.
  intros Hfit HT Hin Hne Hns st1. subst st1.
  rewrite set_backend by assumption. cbn [default from_option id].
  set (T := ttl_of cache ttlInSeconds) in *.
  set (st1 := (exec (pipeline queryKey (stored cache data) dependencies T) st).1).
  assert (Hn : now st1 = now st) by apply exec_now.
  destruct (pipeline_registers queryKey (stored cache data) T HT
              name dependencies st Hin Hne Hns) as (s & Hs & Hmem).
  fold st1 in Hs.
  assert (Hf : find st1 (dependencyKey name)
               = Some (Entry (VSet s) (Some (now st + T)))).
  { apply find_Some_live; [assumption | lia]. }
  unfold smembers, ttl. rewrite Hf. split; [assumption|].
  f_equal. lia.
Qed.

End WithCache.

End Sequences.

(** ** The properties of the cache *)

Module Properties.

Import Redis Cache RedisFacts SetFacts ReadFacts Sequences Sample.

#[export] Instance framing_lossless : @SnappyLossless framing.
Proof. intros b. reflexivity. Qed.

(** C2 (as the code has it): when compression is enabled, a payload whose
    byte length exceeds [maxEntrySize] makes [set] fail with the
    'maxEntrySize exceeded' error before any request is issued, and the
    backend is left exactly as it was. *)
Theorem set_rejects_oversized_when_compressing `{Snappy} (cache : Cache)
    (queryKey data : string) (dependencies : option (list string))
    (ttlInSeconds : option Z) (st : t) :
  compression cache = true ->
  maxEntrySize cache < Z.of_nat (String.length data) ->
  let o := set cache queryKey data dependencies ttlInSeconds st in
  result o = Rejected MaxEntrySizeExceeded /\
  issued o = [] /\
  backend o = st.
Proof.
  intros Hc Hlen o. subst o. rewrite set_too_large by assumption.
  repeat split.
Qed.

Lemma set_rejects_oversized_when_compressing_witness :
  let o := set small_compressing "k3" "this exceeds ten bytes" None None empty in
  result o = Rejected MaxEntrySizeExceeded /\ issued o = [] /\ backend o = empty.
Proof.
  apply (set_rejects_oversized_when_compressing small_compressing
           "k3" "this exceeds ten bytes" None None empty).
  - reflexivity.
  - vm_compute. reflexivity.
Defined.

(** C2 as stated fails: with compression disabled a payload longer than
    [maxEntrySize] is written like any other. *)
Lemma oversized_payload_stored_without_compression :
  let o := set small_plain "k3" "this exceeds ten bytes" None None empty in
  maxEntrySize small_plain < Z.of_nat (String.length "this exceeds ten bytes") /\
  result o = Fulfilled tt /\
  issued o = [Single (SET "k3" "this exceeds ten bytes" 3600)] /\
  find (backend o) "k3"
  = Some (Entry (VStr "this exceeds ten bytes") (Some 3600)).
Proof. vm_compute. repeat split. Qed.

(** C3: with compression disabled [set] has no size check: whatever the
    length of the payload it never fails with 'maxEntrySize exceeded', it
    sends the write of the payload as it is, and (the TTL being positive) the
    write is applied. *)
Theorem set_without_compression_never_checks_size `{Snappy} (cache : Cache)
    (queryKey data : string) (dependencies : option (list string))
    (ttlInSeconds : option Z) (st : t) :
  compression cache = false ->
  let o := set cache queryKey data dependencies ttlInSeconds st in
  let T := ttl_of cache ttlInSeconds in
  result o ≠ Rejected MaxEntrySizeExceeded /\
  (exists req, issued o = [req] /\ In (SET queryKey data T) (commands req)) /\
  (0 < T ->
   result o = Fulfilled tt /\
   find (backend o) queryKey = Some (Entry (VStr data) (Some (now st + T)))).
Proof.
  intros Hc o T. subst o T.
  assert (Hfit : fits cache data) by (intros Hc'; congruence).
  assert (Hst : stored cache data = data) by (unfold stored; rewrite Hc; reflexivity).
  split; [|split].
  - destruct dependencies as [[|d ds]|].
    + rewrite set_alone by auto. cbn [result].
      destruct (execute _ st).2; discriminate.
    + rewrite set_with_dependencies by assumption. discriminate.
    + rewrite set_alone by auto. cbn [result].
      destruct (execute _ st).2; discriminate.
  - destruct (set_issued cache queryKey data dependencies ttlInSeconds st Hfit)
      as (req & Hreq & Hcmds & _).
    exists req. split; [assumption|]. rewrite Hcmds, Hst. left. reflexivity.
  - intros HT. split; [apply set_result; auto|].
    rewrite set_backend by assumption.
    destruct (pipeline_stores queryKey (stored cache data)
                (ttl_of cache ttlInSeconds) HT (default [] dependencies) st)
      as [Hn Hk].
    rewrite Hst in *. apply find_Some_live; [assumption|]. rewrite Hn. lia.
Qed.

Lemma set_without_compression_never_checks_size_witness :
  let o := set small_plain "k3" "this exceeds ten bytes" None None empty in
  result o ≠ Rejected MaxEntrySizeExceeded /\
  (exists req, issued o = [req] /\
               In (SET "k3" "this exceeds ten bytes" 3600) (commands req)) /\
  (0 < 3600 ->
   result o = Fulfilled tt /\
   find (backend o) "k3"
   = Some (Entry (VStr "this exceeds ten bytes") (Some (0 + 3600)))).
Proof.
  apply (set_without_compression_never_checks_size small_plain
           "k3" "this exceeds ten bytes" None None empty).
  reflexivity.
Defined.

(** C7: for a payload that passes the size check, [set] issues exactly one
    request; its commands are one SET of the primary entry with the TTL,
    followed, per dependency name in order, by one SADD of the key to
    [dependency:<name>] and one EXPIRE of that record with the same TTL; and
    when there is a dependency the request is a MULTI/EXEC transaction. *)
Theorem set_issues_one_batch `{Snappy} (cache : Cache)
    (queryKey data : string) (dependencies : option (list string))
    (ttlInSeconds : option Z) (st : t) :
  fits cache data ->
  let T := ttl_of cache ttlInSeconds in
  let queue :=
    SET queryKey (stored cache data) T
    :: flat_map (fun name => [SADD (dependencyKey name) queryKey;
                              EXPIRE (dependencyKey name) T])
                (default [] dependencies) in
  exists req : request,
    issued (set cache queryKey data dependencies ttlInSeconds st) = [req] /\
    commands req = queue /\
    (default [] dependencies ≠ [] -> req = Multi queue).
Proof.
  intros Hfit T queue.
  exact (set_issued cache queryKey data dependencies ttlInSeconds st Hfit).
Qed.

Lemma set_issues_one_batch_witness :
  exists req : request,
    issued (set small_compressing "k" "short" (Some ["a"; "b"]) (Some 60) empty)
    = [req] /\
    commands req
    = [SET "k" "sshort" 60;
       SADD "dependency:a" "k"; EXPIRE "dependency:a" 60;
       SADD "dependency:b" "k"; EXPIRE "dependency:b" 60] /\
    (["a"; "b"] ≠ [] -> req = Multi (commands req)).
Proof.
  destruct (set_issues_one_batch small_compressing "k" "short"
              (Some ["a"; "b"]) (Some 60) empty) as (req & Hreq & Hcmds & Hmulti).
  - intros _. vm_compute. discriminate.
  - exists req. split; [exact Hreq|]. split; [exact Hcmds|].
    intros Hne. rewrite Hcmds. apply Hmulti. exact Hne.
Defined.

(** C8: with compression disabled the stored bytes are the payload itself,
    and a [get] that follows a [set] of the key while the entry lives ([d]
    seconds later, [d] below the TTL) is fulfilled with exactly the payload. *)
Theorem roundtrip_without_compression `{Snappy} (cache : Cache)
    (queryKey data : string) (dependencies : option (list string))
    (ttlInSeconds : option Z) (st : t) (d : Z) :
  compression cache = false ->
  0 <= d < ttl_of cache ttlInSeconds ->
  let o := set cache queryKey data dependencies ttlInSeconds st in
  result o = Fulfilled tt /\
  db (backend o) !! queryKey
  = Some (Entry (VStr data) (Some (now st + ttl_of cache ttlInSeconds))) /\
  get cache queryKey (tick d (backend o))
  = Outcome (Fulfilled (Str data)) (tick d (backend o)) [Single (GET queryKey)].
Proof.
  intros Hc Hd o. subst o.
  destruct (set_then_get cache queryKey data dependencies ttlInSeconds st d)
    as (Hres & Hdb & Hget); try assumption; try (intros Hc'; congruence).
  unfold stored in Hdb. rewrite Hc in Hdb, Hget. auto.
Qed.

Lemma roundtrip_without_compression_witness :
  let o := set plain "testKey" "[]" None None empty in
  result o = Fulfilled tt /\
  db (backend o) !! "testKey" = Some (Entry (VStr "[]") (Some (0 + 3600))) /\
  get plain "testKey" (tick 5 (backend o))
  = Outcome (Fulfilled (Str "[]")) (tick 5 (backend o)) [Single (GET "testKey")].
Proof.
  apply (roundtrip_without_compression plain "testKey" "[]" None None empty 5).
  - reflexivity.
  - vm_compute. split; [discriminate | reflexivity].
Defined.

(** C9: with compression enabled, a lossless codec and a payload within
    [maxEntrySize], the stored bytes are the compressed payload, and a [get]
    that follows the [set] while the entry lives decompresses them and is
    fulfilled with exactly the payload. *)
Theorem roundtrip_with_compression `{SnappyLossless} (cache : Cache)
    (queryKey data : string) (dependencies : option (list string))
    (ttlInSeconds : option Z) (st : t) (d : Z) :
  compression cache = true ->
  Z.of_nat (String.length data) <= maxEntrySize cache ->
  0 <= d < ttl_of cache ttlInSeconds ->
  let o := set cache queryKey data dependencies ttlInSeconds st in
  result o = Fulfilled tt /\
  db (backend o) !! queryKey
  = Some (Entry (VStr (compress data))
                (Some (now st + ttl_of cache ttlInSeconds))) /\
  get cache queryKey (tick d (backend o))
  = Outcome (Fulfilled (Str data)) (tick d (backend o))
            [Single (GETBUFFER queryKey)].
Proof.
  intros Hc Hlen Hd o. subst o.
  destruct (set_then_get cache queryKey data dependencies ttlInSeconds st d)
    as (Hres & Hdb & Hget); try assumption.
  - intros _. assumption.
  - intros _. apply uncompress_compress.
  - unfold stored in Hdb. rewrite Hc in Hdb, Hget. auto.
Qed.

Lemma roundtrip_with_compression_witness :
  let o := set small_compressing "k" "ten bytes!" None (Some 60) empty in
  result o = Fulfilled tt /\
  db (backend o) !! "k" = Some (Entry (VStr "sten bytes!") (Some (0 + 60))) /\
  get small_compressing "k" (tick 59 (backend o))
  = Outcome (Fulfilled (Str "ten bytes!")) (tick 59 (backend o))
            [Single (GETBUFFER "k")].
Proof.
  apply (@roundtrip_with_compression framing framing_lossless
           small_compressing "k" "ten bytes!" None (Some 60) empty 59).
  - reflexivity.
  - vm_compute. discriminate.
  - vm_compute. split; [discriminate | reflexivity].
Defined.

(** C10: for a key that was never written, or whose TTL has elapsed, [get]
    sends one read, is fulfilled with the absent value [Null] (it is not
    rejected with any error) and leaves the backend as it was. *)
Theorem get_miss_is_absent `{Snappy} (cache : Cache) (queryKey : string) (st : t) :
  db st !! queryKey = None \/
  (exists (v : rvalue) (d : Z),
     db st !! queryKey = Some (Entry v (Some d)) /\ d <= now st) ->
  let o := get cache queryKey st in
  result o = Fulfilled Null /\
  (forall e : error, result o ≠ Rejected e) /\
  backend o = st /\
  issued o = [Single (if compression cache then GETBUFFER queryKey
                      else GET queryKey)].
Proof.
  intros Hmiss o. subst o.
  assert (Hf : find st queryKey = None).
  { destruct Hmiss as [Habsent | (v & d & Hk & Hd)].
    - apply find_None_absent. assumption.
    - apply find_None_expired with (v := v) (d := d); assumption. }
  rewrite get_miss by assumption. repeat split. discriminate.
Qed.

Lemma get_miss_is_absent_witness :
  let st := tick 2 (after (set plain "k1" "hello" None (Some 1)) empty) in
  let o := get plain "k1" st in
  result o = Fulfilled Null /\
  (forall e : error, result o ≠ Rejected e) /\
  backend o = st /\
  issued o = [Single (GET "k1")].
Proof.
  apply (get_miss_is_absent plain "k1"
           (tick 2 (after (set plain "k1" "hello" None (Some 1)) empty))).
  right. exists (VStr "hello"), 1. split.
  - vm_compute. reflexivity.
  - vm_compute. discriminate.
Defined.

(** Where the transaction of [set] is applied in full: let the payload pass
    the size check, the TTL be positive, the key differ from
    [dependency:<name>] and [dependency:<name>] hold no plain string.  After
    [set(key, P, [name], T)], [invalidate(name)] succeeds, a later [get(key)]
    is fulfilled with the absent value, the backend holds no
    [dependency:<name>] any more, and a second [invalidate(name)] succeeds and
    changes nothing.  [d1], [d2], [d3] are the seconds that pass between the
    calls. *)
Theorem invalidate_after_set `{Snappy} (cache : Cache)
    (queryKey data name : string) (ttlInSeconds : option Z) (st : t)
    (d1 d2 d3 : Z) :
  fits cache data ->
  0 < ttl_of cache ttlInSeconds ->
  queryKey ≠ dependencyKey name ->
  is_string st (dependencyKey name) = false ->
  0 <= d1 -> 0 <= d2 -> 0 <= d3 ->
  let st1 := backend (set cache queryKey data (Some [name]) ttlInSeconds st) in
  let o := invalidate name (tick d1 st1) in
  let st2 := backend o in
  result o = Fulfilled tt /\
  get cache queryKey (tick d2 st2)
  = Outcome (Fulfilled Null) (tick d2 st2)
            [Single (if compression cache then GETBUFFER queryKey
                     else GET queryKey)] /\
  db st2 !! dependencyKey name = None /\
  invalidate name (tick d3 st2)
  = Outcome (Fulfilled tt) (tick d3 st2)
            [Single (SMEMBERS (dependencyKey name));
             Single (DEL (dependencyKey name))].
Proof.
  intros Hfit HT Hne Hns Hd1 Hd2 Hd3 st1 o st2. subst st2 o st1.
  destruct (set_then_invalidate cache queryKey data [name] ttlInSeconds name
              st d1 d2) as (Hres & Hgone & Hmiss); try assumption.
  { apply list_elem_of_here. }
  split; [assumption|]. split; [apply get_miss; assumption|].
  split; [assumption|]. apply invalidate_absent. assumption.
Qed.

Lemma invalidate_after_set_witness :
  let st1 := backend (set plain "k2" "payload" (Some ["users"]) (Some 60) empty) in
  let o := invalidate "users" (tick 0 st1) in
  let st2 := backend o in
  result o = Fulfilled tt /\
  get plain "k2" (tick 0 st2)
  = Outcome (Fulfilled Null) (tick 0 st2) [Single (GET "k2")] /\
  db st2 !! "dependency:users" = None /\
  invalidate "users" (tick 0 st2)
  = Outcome (Fulfilled tt) (tick 0 st2)
            [Single (SMEMBERS "dependency:users");
             Single (DEL "dependency:users")].
Proof.
  apply (invalidate_after_set plain "k2" "payload" "users" (Some 60) empty 0 0 0).
  - intros Hc. discriminate Hc.
  - reflexivity.
  - vm_compute. discriminate.
  - reflexivity.
  - lia.
  - lia.
  - lia.
Defined.

(** C5 at a failing input: [set("dependency:users", "payload", ["users"],
    60)] on an empty backend, then [invalidate("users")], then [get].  The
    transaction of [set] is applied in part (SET applied, SADD refused with
    WRONGTYPE, EXPIRE applied) and its promise is fulfilled all the same;
    [invalidate] is then rejected at its SMEMBERS, the key is still served
    and [dependency:users] is still in the backend. *)
Lemma invalidate_after_set_colliding_key :
  let queue := [SET "dependency:users" "payload" 60;
                SADD "dependency:users" "dependency:users";
                EXPIRE "dependency:users" 60] in
  let w := set plain "dependency:users" "payload" (Some ["users"]) (Some 60) empty in
  let o := invalidate "users" (backend w) in
  issued w = [Multi queue] /\
  (exec queue empty).2 = [inr (Str "OK"); inl WRONGTYPE; inr (Num 1)] /\
  result w = Fulfilled tt /\
  result o = Rejected (ReplyError WRONGTYPE) /\
  result (get plain "dependency:users" (backend o)) = Fulfilled (Str "payload") /\
  db (backend o) !! "dependency:users"
  = Some (Entry (VStr "payload") (Some 60)).
Proof. vm_compute. repeat split. Qed.

(** The same partial application with [T = 0]: the SET of the transaction is
    refused and an older value of the key survives the invalidation. *)
Example invalidate_after_set_zero_ttl :
  let st := after (set plain "k2" "old" None (Some 60)) empty in
  let w := set plain "k2" "payload" (Some ["users"]) (Some 0) st in
  let o := invalidate "users" (backend w) in
  result w = Fulfilled tt /\
  result o = Fulfilled tt /\
  result (get plain "k2" (backend o)) = Fulfilled (Str "old").
Proof. vm_compute. repeat split. Qed.

(** And with a record that is a plain string: the SADD is refused, the key is
    written unregistered and [invalidate] is rejected. *)
Example invalidate_after_set_string_record :
  let st := after (set plain "dependency:users" "x" None (Some 60)) empty in
  let w := set plain "k2" "payload" (Some ["users"]) (Some 60) st in
  let o := invalidate "users" (backend w) in
  result w = Fulfilled tt /\
  result o = Rejected (ReplyError WRONGTYPE) /\
  result (get plain "k2" (backend o)) = Fulfilled (Str "payload").
Proof. vm_compute. repeat split. Qed.

(** Where the transaction of [set] is applied in full: let the payload pass
    the size check, the TTL be
    positive and, for a dependency [name] of the list, the key differ from
    [dependency:<name>] and [dependency:<name>] hold no plain string.  After
    the [set] the key is a member of [dependency:<name>], and invalidating
    [name] makes a later [get] of the key absent.  Whatever the backend,
    [invalidate(name)] leaves every key that is neither a member of
    [dependency:<name>] nor that record as it was, and, unless the record is a
    plain string, removes the members and the record. *)
Theorem set_registers_under_every_dependency `{Snappy} (cache : Cache)
    (queryKey data name : string) (dependencies : list string)
    (ttlInSeconds : option Z) (st : t) (d1 d2 : Z) :
  fits cache data ->
  0 < ttl_of cache ttlInSeconds ->
  name ∈ dependencies ->
  queryKey ≠ dependencyKey name ->
  is_string st (dependencyKey name) = false ->
  0 <= d1 -> 0 <= d2 ->
  let st1 := backend (set cache queryKey data (Some dependencies) ttlInSeconds st) in
  queryKey ∈ smembers st1 (dependencyKey name) /\
  (let st2 := backend (invalidate name (tick d1 st1)) in
   get cache queryKey (tick d2 st2)
   = Outcome (Fulfilled Null) (tick d2 st2)
             [Single (if compression cache then GETBUFFER queryKey
                      else GET queryKey)]) /\
  (forall (st' : t) (other : string),
     other ∉ smembers st' (dependencyKey name) ->
     other ≠ dependencyKey name ->
     db (backend (invalidate name st')) !! other = db st' !! other) /\
  (forall (st' : t) (member : string),
     is_string st' (dependencyKey name) = false ->
     member ∈ smembers st' (dependencyKey name) \/ member = dependencyKey name ->
     db (backend (invalidate name st')) !! member = None).
Proof.
  intros Hfit HT Hin Hne Hns Hd1 Hd2 st1. subst st1.
  split; [|split; [|split]].
  - apply set_registers; assumption.
  - cbv zeta. apply get_miss.
    apply (set_then_invalidate cache queryKey data dependencies ttlInSeconds
             name st d1 d2); assumption.
  - intros st' other Hother Hrec. apply invalidate_frame; assumption.
  - intros st' member Hns' Hmember.
    destruct (invalidate_spec name st' Hns') as (_ & _ & Hdb).
    rewrite Hdb. case_decide; [reflexivity | tauto].
Qed.

Lemma set_registers_under_every_dependency_witness :
  let st := after (set plain "y" "w" (Some ["b"]) (Some 60)) empty in
  let st1 := backend (set plain "x" "v" (Some ["a"; "b"]) (Some 60) st) in
  let st2 := backend (invalidate "a" (tick 0 st1)) in
  "x" ∈ smembers st1 "dependency:a" /\
  get plain "x" (tick 0 st2)
  = Outcome (Fulfilled Null) (tick 0 st2) [Single (GET "x")] /\
  db (backend (invalidate "a" st1)) !! "y" = db st1 !! "y" /\
  db (backend (invalidate "a" st1)) !! "dependency:b"
  = db st1 !! "dependency:b" /\
  db (backend (invalidate "a" st1)) !! "dependency:a" = None.
Proof.
  destruct (set_registers_under_every_dependency plain "x" "v" "a" ["a"; "b"]
              (Some 60)
              (after (set plain "y" "w" (Some ["b"]) (Some 60)) empty) 0 0)
    as (Hreg & Hget & Hframe & Hdel).
  - intros Hc. discriminate Hc.
  - reflexivity.
  - apply list_elem_of_here.
  - vm_compute. discriminate.
  - vm_compute. reflexivity.
  - lia.
  - lia.
  - split; [exact Hreg|]. split; [exact Hget|]. split; [|split].
    + apply Hframe.
      * apply (bool_decide_unpack _). vm_compute. exact I.
      * vm_compute. discriminate.
    + apply Hframe.
      * apply (bool_decide_unpack _). vm_compute. exact I.
      * vm_compute. discriminate.
    + apply Hdel; [vm_compute; reflexivity | right; reflexivity].
Defined.

(** C6 at a failing input: [set("dependency:a", "payload", ["a", "b"], 60)] on
    an empty backend.  The transaction is applied in part (the SADD for ["a"]
    is refused with WRONGTYPE, every other command is applied) and its promise
    is fulfilled all the same: the key is registered under ["b"] but not under
    ["a"], and invalidating ["a"] is rejected and removes nothing. *)
Lemma registration_refused_for_colliding_key :
  let queue := [SET "dependency:a" "payload" 60;
                SADD "dependency:a" "dependency:a"; EXPIRE "dependency:a" 60;
                SADD "dependency:b" "dependency:a"; EXPIRE "dependency:b" 60] in
  let w := set plain "dependency:a" "payload" (Some ["a"; "b"]) (Some 60) empty in
  let o := invalidate "a" (backend w) in
  issued w = [Multi queue] /\
  (exec queue empty).2
  = [inr (Str "OK"); inl WRONGTYPE; inr (Num 1); inr (Num 1); inr (Num 1)] /\
  result w = Fulfilled tt /\
  smembers (backend w) "dependency:a" = ∅ /\
  elements (smembers (backend w) "dependency:b") = ["dependency:a"] /\
  result o = Rejected (ReplyError WRONGTYPE) /\
  result (get plain "dependency:a" (backend o)) = Fulfilled (Str "payload").
Proof. vm_compute. repeat split. Qed.

(** C1 at a failing input: ["k1"] is stored under ["users"] for 100 seconds,
    then ["k2"] under ["users"] for 10 seconds.  The second [set] cuts the TTL
    of [dependency:users] from 100 to 10 while ["k1"] is still registered with
    100 seconds to live; 10 seconds later the record has expired,
    [invalidate("users")] finds nothing and ["k1"] is still served. *)
Theorem dependency_ttl_shortened_by_later_set :
  let st1 := after (set plain "k1" "v" (Some ["users"]) (Some 100)) empty in
  let st2 := after (set plain "k2" "v" (Some ["users"]) (Some 10)) st1 in
  let o := invalidate "users" (tick 10 st2) in
  ttl st1 "dependency:users" = Some 100 /\
  "k1" ∈ smembers st2 "dependency:users" /\
  ttl st2 "k1" = Some 100 /\
  ttl st2 "dependency:users" = Some 10 /\
  issued o = [Single (SMEMBERS "dependency:users");
              Single (DEL "dependency:users")] /\
  result (get plain "k1" (backend o)) = Fulfilled (Str "v").
Proof.
  cbv zeta. split; [vm_compute; reflexivity|].
  split; [apply (bool_decide_unpack _); vm_compute; exact I|].
  vm_compute. repeat split.
Qed.

(** C4 at a failing input: [dependency:users] holds a plain string when
    [set("k", "v", ["users"], 60)] runs.  The transaction is sent as one
    request and its promise is fulfilled; its SET is applied, its SADD is
    refused with WRONGTYPE, its EXPIRE is applied: the value is written and
    the key is registered nowhere. *)
Theorem transaction_not_rolled_back :
  let st := after (set plain "dependency:users" "x" None (Some 60)) empty in
  let queue := [SET "k" "v" 60; SADD "dependency:users" "k";
                EXPIRE "dependency:users" 60] in
  let o := set plain "k" "v" (Some ["users"]) (Some 60) st in
  issued o = [Multi queue] /\
  (exec queue st).2 = [inr (Str "OK"); inl WRONGTYPE; inr (Num 1)] /\
  result o = Fulfilled tt /\
  result (get plain "k" (backend o)) = Fulfilled (Str "v") /\
  smembers (backend o) "dependency:users" = ∅ /\
  result (invalidate "users" (backend o)) = Rejected (ReplyError WRONGTYPE).
Proof. vm_compute. repeat split. Qed.

(** The same with a TTL of 0 and ordinary keys: the SET is refused, the SADD
    is applied and the EXPIRE then deletes the whole record, so ["k0"] loses
    its registration although ["k"] was never written. *)
Example transaction_zero_ttl_drops_record :
  let st := after (set plain "k0" "v0" (Some ["users"]) (Some 60)) empty in
  let o := set plain "k" "v" (Some ["users"]) (Some 0) st in
  (exec [SET "k" "v" 0; SADD "dependency:users" "k";
         EXPIRE "dependency:users" 0] st).2
  = [inl InvalidExpire; inr (Num 1); inr (Num 1)] /\
  result o = Fulfilled tt /\
  result (get plain "k" (backend o)) = Fulfilled Null /\
  db st !! "dependency:users" ≠ None /\
  db (backend o) !! "dependency:users" = None /\
  result (get plain "k0" (backend (invalidate "users" (backend o))))
  = Fulfilled (Str "v0").
Proof. vm_compute. repeat split. discriminate. Qed.

End Properties.

(** ** Further behaviour of the operations *)

Module Behaviour.

Import Redis Cache RedisFacts SetFacts ReadFacts Sequences Sample.

(** X1: [configureCache] fails exactly when [redis] is not an ioredis
    client.  Otherwise the default TTL and the size limit of the cache are
    positive: each is the option when that is positive, and 3600 seconds or
    5,000,000 bytes when the option is missing or not positive; compression is
    on only when the option is exactly [true]. *)
Theorem configureCache_defaults (options : Config) :
  (configureCache options = None <-> redis options = NotRedis) /\
  (forall cache : Cache,
     configureCache options = Some cache ->
     0 < defaultTtl cache /\
     0 < maxEntrySize cache /\
     (opt_defaultTtl options = Some (defaultTtl cache) \/
      defaultTtl cache = 3600 /\
      forall n, opt_defaultTtl options = Some n -> n <= 0) /\
     (opt_maxEntrySize options = Some (maxEntrySize cache) \/
      maxEntrySize cache = 5000000 /\
      forall n, opt_maxEntrySize options = Some n -> n <= 0) /\
     (compression cache = true <-> opt_compression options = Some true)).
Proof.
  unfold configureCache. split.
  - destruct (redis options); split; intros Heq; congruence.
  - intros cache. destruct (redis options); [|discriminate].
    intros [= <-]. cbn [defaultTtl maxEntrySize compression].
    unfold positive_or.
    repeat split.
    + destruct (opt_defaultTtl options) as [n|]; [|lia].
      destruct (Z.ltb_spec 0 n); lia.
    + destruct (opt_maxEntrySize options) as [n|]; [|lia].
      destruct (Z.ltb_spec 0 n); lia.
    + destruct (opt_defaultTtl options) as [n|].
      * destruct (Z.ltb_spec 0 n); [left; reflexivity|].
        right. split; [reflexivity|]. intros m [= <-]. assumption.
      * right. split; [reflexivity|]. intros m Hm. discriminate Hm.
    + destruct (opt_maxEntrySize options) as [n|].
      * destruct (Z.ltb_spec 0 n); [left; reflexivity|].
        right. split; [reflexivity|]. intros m [= <-]. assumption.
      * right. split; [reflexivity|]. intros m Hm. discriminate Hm.
    + destruct (opt_compression options) as [[|]|]; congruence.
    + destruct (opt_compression options) as [[|]|]; congruence.
Qed.

Lemma configureCache_defaults_witness :
  0 < defaultTtl plain /\
  0 < maxEntrySize plain /\
  (opt_defaultTtl RedisClient.options = Some (defaultTtl plain) \/
   defaultTtl plain = 3600 /\
   forall n, opt_defaultTtl RedisClient.options = Some n -> n <= 0) /\
  (opt_maxEntrySize RedisClient.options = Some (maxEntrySize plain) \/
   maxEntrySize plain = 5000000 /\
   forall n, opt_maxEntrySize RedisClient.options = Some n -> n <= 0) /\
  (compression plain = true <-> opt_compression RedisClient.options = Some true).
Proof.
  apply (proj2 (configureCache_defaults RedisClient.options) plain).
  reflexivity.
Defined.

(** X2: [get] only reads.  Whatever the key holds and however the promise
    settles (a hit, a miss, a refused read, bytes that do not decompress), the
    backend is left exactly as it was and exactly one read was issued. *)
Theorem get_never_writes `{Snappy} (cache : Cache) (queryKey : string) (st : t) :
  let o := get cache queryKey st in
  backend o = st /\
  issued o = [Single (if compression cache then GETBUFFER queryKey
                      else GET queryKey)].
Proof.
  unfold get, mbind, async_bind.
  destruct (compression cache); rewrite call_run; simpl;
    destruct (find st queryKey) as [[[b|s] d]|]; simpl;
    try (split; reflexivity).
  destruct (uncompress b); split; reflexivity.
Qed.

(** X4: with compression enabled, [get] of a key whose stored bytes the codec
    refuses is rejected with the codec's error; the backend is untouched and
    the promise is not fulfilled with the absent value. *)
Theorem get_of_corrupt_bytes_is_rejected `{Snappy} (cache : Cache)
    (queryKey b : string) (d : option Z) (st : t) :
  compression cache = true ->
  find st queryKey = Some (Entry (VStr b) d) ->
  uncompress b = None ->
  get cache queryKey st
  = Outcome (Rejected UncompressError) st [Single (GETBUFFER queryKey)].
Proof.
  intros Hc Hf Hb. unfold get, mbind, async_bind. rewrite Hc, call_run.
  simpl. rewrite Hf. simpl. rewrite Hb. reflexivity.
Qed.

Lemma get_of_corrupt_bytes_is_rejected_witness :
  let st := after (set plain "k" "payload" None (Some 60)) empty in
  get small_compressing "k" st
  = Outcome (Rejected UncompressError) st [Single (GETBUFFER "k")].
Proof.
  apply (@get_of_corrupt_bytes_is_rejected framing small_compressing
           "k" "payload" (Some 60)).
  - reflexivity.
  - vm_compute. reflexivity.
  - reflexivity.
Defined.

Lemma fits_or_too_large (cache : Cache) (data : string) :
  fits cache data \/
  (compression cache = true /\
   maxEntrySize cache < Z.of_nat (String.length data)).
Proof.
  unfold fits. destruct (compression cache).
  - destruct (Z.le_gt_cases (Z.of_nat (String.length data)) (maxEntrySize cache)).
    + left. intros _. assumption.
    + right. split; [reflexivity | lia].
  - left. intros Hc. discriminate Hc.
Qed.

(** X5: how [set] settles.  With an accepted payload and at least one named
    dependency the promise is always fulfilled, whatever the TTL (a refusal
    inside the transaction only lands in a slot nobody reads).  A fulfilled
    promise means the payload passed the size check and either a dependency
    was named or the TTL was positive.  The only rejections are the size
    error, and a refusal by the backend of the lone SET when no dependency is
    named; whenever [set] is rejected the backend is left exactly as it
    was. *)
Theorem set_settles `{Snappy} (cache : Cache) (queryKey data : string)
    (dependencies : option (list string)) (ttlInSeconds : option Z) (st : t) :
  let o := set cache queryKey data dependencies ttlInSeconds st in
  (fits cache data -> default [] dependencies ≠ [] -> result o = Fulfilled tt) /\
  (result o = Fulfilled tt ->
   fits cache data /\
   (default [] dependencies ≠ [] \/ 0 < ttl_of cache ttlInSeconds)) /\
  (forall e : error,
     result o = Rejected e ->
     backend o = st /\
     (e = MaxEntrySizeExceeded /\
      compression cache = true /\
      maxEntrySize cache < Z.of_nat (String.length data)
      \/
      (exists refusal : failure, e = ReplyError refusal) /\
      fits cache data /\
      default [] dependencies = [])).
Proof.
  intros o. subst o.
  destruct (fits_or_too_large cache data) as [Hfit | [Hc Hlen]].
  - split; [intros _ Hne; apply set_result; auto|].
    destruct (decide (default [] dependencies = [])) as [Hnil | Hne].
    + assert (Hdeps : dependencies = None \/ dependencies = Some []).
      { destruct dependencies as [[|d ds]|]; auto. discriminate Hnil. }
      rewrite set_alone by assumption. cbn [result backend execute].
      destruct (Z.ltb_spec 0 (ttl_of cache ttlInSeconds)) as [HT | HT];
        cbn [fst snd].
      * split; [intros _; split; [assumption | right; assumption]|].
        intros e He. discriminate He.
      * split; [intros He; discriminate He|].
        intros e [= <-]. split; [reflexivity|]. right.
        split; [eexists; reflexivity|]. split; assumption.
    + assert (Hres : result (set cache queryKey data dependencies
                               ttlInSeconds st) = Fulfilled tt)
        by (apply set_result; auto).
      rewrite Hres. split; [intros _; split; [assumption | left; assumption]|].
      intros e He. discriminate He.
  - rewrite set_too_large by assumption. cbn [result backend].
    split; [intros Hfit; specialize (Hfit Hc); lia|].
    split; [intros He; discriminate He|].
    intros e [= <-]. split; [reflexivity|]. left. auto.
Qed.

(** Keys that are neither the query key nor a named record are out of reach
    of [set]. *)
Lemma set_frame `{Snappy} (cache : Cache) (queryKey data : string)
    (dependencies : option (list string)) (ttlInSeconds : option Z) (st : t)
    (other : string) :
  other ≠ queryKey ->
  (forall name : string,
     name ∈ default [] dependencies -> other ≠ dependencyKey name) ->
  let o := set cache queryKey data dependencies ttlInSeconds st in
  db (backend o) !! other = db st !! other /\
  now (backend o) = now st.
Proof.
  intros Hkey Hdeps o. subst o.
  destruct (fits_or_too_large cache data) as [Hfit | [Hc Hlen]].
  - rewrite set_backend by assumption. split; [|apply exec_now].
    apply exec_frame. unfold pipeline. constructor; [exact Hkey|].
    induction (default [] dependencies) as [|d ds IH]; [constructor|].
    cbn [flat_map registration app].
    constructor; [apply Hdeps; left|].
    constructor; [apply Hdeps; left|].
    apply IH. intros name Hin. apply Hdeps. right. assumption.
  - rewrite set_too_large by assumption. split; reflexivity.
Qed.

(** X6: [set] touches the query key and the records of the dependencies it
    names, nothing else: every other key holds afterwards what it held before,
    and the clock of the backend does not move.  This holds whether the
    promise is fulfilled or rejected. *)
Theorem set_leaves_other_keys `{Snappy} (cache : Cache) (queryKey data : string)
    (dependencies : option (list string)) (ttlInSeconds : option Z) (st : t)
    (other : string) :
  other ≠ queryKey ->
  (forall name : string,
     name ∈ default [] dependencies -> other ≠ dependencyKey name) ->
  let o := set cache queryKey data dependencies ttlInSeconds st in
  db (backend o) !! other = db st !! other /\
  now (backend o) = now st.
Proof.
  intros Hkey Hdeps.
  exact (set_frame cache queryKey data dependencies ttlInSeconds st other
           Hkey Hdeps).
Qed.

Lemma set_leaves_other_keys_witness :
  let st := after (set plain "y" "w" (Some ["b"]) (Some 60)) empty in
  let o := set plain "x" "v" (Some ["a"]) (Some 10) st in
  db (backend o) !! "dependency:b" = db st !! "dependency:b" /\
  now (backend o) = now st.
Proof.
  apply (set_leaves_other_keys plain "x" "v" (Some ["a"]) (Some 10)
           (after (set plain "y" "w" (Some ["b"]) (Some 60)) empty)
           "dependency:b").
  - discriminate.
  - intros name Hin. apply list_elem_of_singleton in Hin. subst name.
    discriminate.
Defined.

(** X7: an entry expires: for a payload that passes the size check and a
    positive TTL [T], a [get] issued [T] seconds or more after the [set] is a
    miss, fulfilled with the absent value. *)
Theorem get_after_expiry_is_absent `{Snappy} (cache : Cache)
    (queryKey data : string) (dependencies : option (list string))
    (ttlInSeconds : option Z) (st : t) (d : Z) :
  fits cache data ->
  0 < ttl_of cache ttlInSeconds ->
  ttl_of cache ttlInSeconds <= d ->
  let st1 := backend (set cache queryKey data dependencies ttlInSeconds st) in
  get cache queryKey (tick d st1)
  = Outcome (Fulfilled Null) (tick d st1)
            [Single (if compression cache then GETBUFFER queryKey
                     else GET queryKey)].
Proof.
  intros Hfit HT Hd st1. subst st1. apply get_miss.
  rewrite set_backend by assumption.
  destruct (pipeline_stores queryKey (stored cache data)
              (ttl_of cache ttlInSeconds) HT (default [] dependencies) st)
    as [Hn Hk].
  apply find_None_expired with (v := VStr (stored cache data))
                               (d := now st + ttl_of cache ttlInSeconds).
  - exact Hk.
  - unfold tick. cbn [now]. rewrite Hn. lia.
Qed.

Lemma get_after_expiry_is_absent_witness :
  let st1 := backend (set plain "k1" "hello" None (Some 1) empty) in
  get plain "k1" (tick 2 st1)
  = Outcome (Fulfilled Null) (tick 2 st1) [Single (GET "k1")].
Proof.
  apply (get_after_expiry_is_absent plain "k1" "hello" None (Some 1) empty 2).
  - intros Hc. discriminate Hc.
  - reflexivity.
  - vm_compute. discriminate.
Defined.

(** With a non-positive TTL the EXPIRE of a registration deletes the record
    it has just been added to, whatever the record held. *)
Lemma registration_nonpositive (queryKey : string) (T : Z) (name : string)
    (st : t) :
  T <= 0 ->
  db (exec (registration queryKey T name) st).1 !! dependencyKey name = None.
Proof.
  intros HT. unfold registration. cbv zeta. rewrite !exec_cons. cbn [exec fst].
  set (dk := dependencyKey name).
  simpl execute at 2.
  destruct (find st dk) as [[[x|s] d]|] eqn:Hf; cbn [fst].
  - simpl. rewrite Hf. destruct (Z.ltb_spec 0 T); [lia|].
    simpl. apply lookup_delete_eq.
  - assert (Ha : alive (now st) (Entry (VSet s) d) = true).
    { unfold find in Hf. destruct (db st !! dk) as [e|]; [|discriminate].
      destruct (alive (now st) e) eqn:Ha; [|discriminate]. congruence. }
    simpl. unfold find at 1. simpl. rewrite lookup_insert_eq.
    unfold alive in *. simpl in *. rewrite Ha.
    destruct (Z.ltb_spec 0 T); [lia|]. simpl. apply lookup_delete_eq.
  - simpl. unfold find at 1. simpl. rewrite lookup_insert_eq. simpl.
    destruct (Z.ltb_spec 0 T); [lia|]. simpl. apply lookup_delete_eq.
Qed.

Lemma registrations_nonpositive (queryKey : string) (T : Z) (name : string)
    (dependencies : list string) (st : t) :
  T <= 0 ->
  db st !! dependencyKey name = None \/ name ∈ dependencies ->
  db (exec (flat_map (registration queryKey T) dependencies) st).1
    !! dependencyKey name = None.
Proof.
  intros HT. revert st. induction dependencies as [|d ds IH]; intros st Hst.
  - destruct Hst as [Hk | Hin]; [assumption|].
    apply elem_of_nil in Hin. contradiction.
  - change (flat_map (registration queryKey T) (d :: ds))
      with (registration queryKey T d
            ++ flat_map (registration queryKey T) ds)%list.
    rewrite exec_app. apply IH.
    destruct (decide (d = name)) as [->|Hd].
    + left. apply registration_nonpositive. assumption.
    + assert (Hk : dependencyKey name ≠ dependencyKey d).
      { intros Heq. apply dependencyKey_inj in Heq. congruence. }
      destruct Hst as [Hnone | Hin].
      * left. rewrite exec_frame; [assumption|].
        repeat constructor; simpl; assumption.
      * right. apply elem_of_cons in Hin as [?|?]; [congruence | assumption].
Qed.

(** X8: a [set] that names dependencies with a non-positive TTL is fulfilled
    although its SET was refused, and its EXPIRE commands delete the record of
    every dependency it names: the keys registered there before are no longer
    registered.  The query key itself, unless it is one of those records, is
    left as it was. *)
Theorem set_with_nonpositive_ttl_drops_records `{Snappy} (cache : Cache)
    (queryKey data name : string) (dependencies : list string)
    (ttlInSeconds : option Z) (st : t) :
  fits cache data ->
  ttl_of cache ttlInSeconds <= 0 ->
  name ∈ dependencies ->
  let o := set cache queryKey data (Some dependencies) ttlInSeconds st in
  result o = Fulfilled tt /\
  db (backend o) !! dependencyKey name = None /\
  smembers (backend o) (dependencyKey name) = ∅ /\
  ((forall other : string, other ∈ dependencies ->
      queryKey ≠ dependencyKey other) ->
   db (backend o) !! queryKey = db st !! queryKey).
Proof.
  intros Hfit HT Hin o. subst o.
  assert (Hne : default [] (Some dependencies) ≠ []).
  { destruct dependencies; [|discriminate].
    apply elem_of_nil in Hin. contradiction. }
  split; [apply set_result; auto|].
  rewrite set_backend by assumption.
  change (default [] (Some dependencies)) with dependencies.
  set (T := ttl_of cache ttlInSeconds) in *.
  assert (Hset : (execute (SET queryKey (stored cache data) T) st).1 = st).
  { simpl. destruct (Z.ltb_spec 0 T); [lia | reflexivity]. }
  unfold pipeline. rewrite exec_cons. cbn [fst]. rewrite Hset.
  assert (Hgone : db (exec (flat_map (registration queryKey T) dependencies) st).1
                    !! dependencyKey name = None).
  { apply registrations_nonpositive; auto. }
  split; [assumption|]. split.
  - unfold smembers. rewrite (find_None_absent _ _ Hgone). reflexivity.
  - intros Hother. apply exec_frame.
    clear Hin Hne Hgone. induction dependencies as [|d ds IH]; [constructor|].
    cbn [flat_map registration app].
    constructor; [apply Hother; left|].
    constructor; [apply Hother; left|].
    apply IH. intros other Hin. apply Hother. right. assumption.
Qed.

Lemma set_with_nonpositive_ttl_drops_records_witness :
  let st := after (set plain "k0" "v0" (Some ["users"]) (Some 60)) empty in
  let o := set plain "k" "v" (Some ["users"]) (Some 0) st in
  "k0" ∈ smembers st "dependency:users" /\
  result o = Fulfilled tt /\
  db (backend o) !! "dependency:users" = None /\
  smembers (backend o) "dependency:users" = ∅.
Proof.
  split; [apply (bool_decide_unpack _); vm_compute; exact I|].
  destruct (set_with_nonpositive_ttl_drops_records plain "k" "v" "users"
              ["users"] (Some 0)
              (after (set plain "k0" "v0" (Some ["users"]) (Some 60)) empty))
    as (Hres & Hgone & Hmembers & _).
  - intros Hc. discriminate Hc.
  - vm_compute. discriminate.
  - apply list_elem_of_here.
  - split; [exact Hres|]. split; [exact Hgone | exact Hmembers].
Defined.

(** One registration with a positive TTL adds the key to whatever the record
    listed and restarts its expiry. *)
Lemma registration_exact (queryKey : string) (T : Z) (name : string) (st : t) :
  0 < T ->
  is_string st (dependencyKey name) = false ->
  db (exec (registration queryKey T name) st).1 !! dependencyKey name
  = Some (Entry (VSet ({[queryKey]} ∪ smembers st (dependencyKey name)))
                (Some (now st + T))).
Proof.
  intros HT. unfold is_string, smembers, registration. cbv zeta.
  rewrite !exec_cons. cbn [exec fst]. set (dk := dependencyKey name).
  simpl execute at 2.
  destruct (find st dk) as [[[x|s] d]|] eqn:Hf; [discriminate| |];
    intros _; cbn [fst].
  - assert (Ha : alive (now st) (Entry (VSet s) d) = true).
    { unfold find in Hf. destruct (db st !! dk) as [e|]; [|discriminate].
      destruct (alive (now st) e) eqn:Ha; [|discriminate]. congruence. }
    simpl. unfold find at 1. simpl. rewrite lookup_insert_eq.
    unfold alive in *. simpl in *. rewrite Ha.
    destruct (Z.ltb_spec 0 T); [|lia]. simpl. apply lookup_insert_eq.
  - simpl. unfold find at 1. simpl. rewrite lookup_insert_eq. simpl.
    destruct (Z.ltb_spec 0 T); [|lia]. simpl. rewrite lookup_insert_eq.
    rewrite union_empty_r_L. reflexivity.
Qed.

Lemma registrations_exact (queryKey : string) (T : Z) (name : string)
    (dependencies : list string) (st : t) :
  0 < T ->
  is_string st (dependencyKey name) = false ->
  let final := (exec (flat_map (registration queryKey T) dependencies) st).1 in
  if decide (name ∈ dependencies)
  then db final !! dependencyKey name
       = Some (Entry (VSet ({[queryKey]} ∪ smembers st (dependencyKey name)))
                     (Some (now st + T)))
  else find final (dependencyKey name) = find st (dependencyKey name).
Proof.
  intros HT. revert st. induction dependencies as [|d ds IH]; intros st Hns.
  - cbv zeta. case_decide as Hin; [|reflexivity].
    apply elem_of_nil in Hin. contradiction.
  - cbv zeta.
    change (flat_map (registration queryKey T) (d :: ds))
      with (registration queryKey T d
            ++ flat_map (registration queryKey T) ds)%list.
    rewrite exec_app.
    set (st1 := (exec (registration queryKey T d) st).1).
    assert (Hn : now st1 = now st) by apply exec_now.
    destruct (decide (d = name)) as [->|Hd].
    + pose proof (registration_exact queryKey T name st HT Hns) as Hdb.
      fold st1 in Hdb.
      assert (Hf : find st1 (dependencyKey name)
                   = Some (Entry (VSet ({[queryKey]}
                                         ∪ smembers st (dependencyKey name)))
                                 (Some (now st + T)))).
      { apply find_Some_live; [assumption | lia]. }
      assert (Hns1 : is_string st1 (dependencyKey name) = false)
        by (unfold is_string; rewrite Hf; reflexivity).
      specialize (IH st1 Hns1). cbv zeta in IH.
      rewrite decide_True by apply list_elem_of_here.
      case_decide as Hin.
      * rewrite IH, Hn. unfold smembers at 1. rewrite Hf.
        do 3 f_equal. apply set_eq. intros x. rewrite !elem_of_union. tauto.
      * apply find_Some_db. rewrite IH. assumption.
    + assert (Hk : dependencyKey name ≠ dependencyKey d).
      { intros Heq. apply dependencyKey_inj in Heq. congruence. }
      assert (Hf : find st1 (dependencyKey name) = find st (dependencyKey name)).
      { apply find_ext; [assumption|]. apply exec_frame.
        repeat constructor; simpl; assumption. }
      assert (Hns1 : is_string st1 (dependencyKey name) = false)
        by (unfold is_string; rewrite Hf; assumption).
      specialize (IH st1 Hns1). cbv zeta in IH.
      repeat case_decide.
      * rewrite IH, Hn. unfold smembers. rewrite Hf. reflexivity.
      * exfalso. rewrite elem_of_cons in *. intuition congruence.
      * exfalso. rewrite elem_of_cons in *. intuition congruence.
      * rewrite IH. assumption.
Qed.

(** The record of a named dependency after a [set] with a positive TTL. *)
Lemma set_record `{Snappy} (cache : Cache)
    (queryKey data name : string) (dependencies : list string)
    (ttlInSeconds : option Z) (st : t) :
  fits cache data ->
  0 < ttl_of cache ttlInSeconds ->
  name ∈ dependencies ->
  queryKey ≠ dependencyKey name ->
  is_string st (dependencyKey name) = false ->
  let st1 := backend (set cache queryKey data (Some dependencies) ttlInSeconds st) in
  now st1 = now st /\
  db st1 !! dependencyKey name
  = Some (Entry (VSet ({[queryKey]} ∪ smembers st (dependencyKey name)))
                (Some (now st + ttl_of cache ttlInSeconds))).
Proof.
  intros Hfit HT Hin Hne Hns st1. subst st1.
  rewrite set_backend by assumption.
  change (default [] (Some dependencies)) with dependencies.
  split; [apply exec_now|].
  set (T := ttl_of cache ttlInSeconds) in *.
  unfold pipeline. rewrite exec_cons. cbn [fst].
  set (st0 := (execute (SET queryKey (stored cache data) T) st).1).
  assert (Hn0 : now st0 = now st) by apply execute_now.
  assert (Hf0 : find st0 (dependencyKey name) = find st (dependencyKey name)).
  { apply find_ext; [assumption|]. apply execute_frame. simpl. congruence. }
  assert (Hns0 : is_string st0 (dependencyKey name) = false)
    by (unfold is_string; rewrite Hf0; assumption).
  pose proof (registrations_exact queryKey T name dependencies st0 HT Hns0)
    as Hex.
  cbv zeta in Hex. rewrite decide_True in Hex by assumption.
  rewrite Hex, Hn0. unfold smembers. rewrite Hf0. reflexivity.
Qed.

(** X9: registrations accumulate.  For an accepted payload, a positive TTL
    and a named dependency whose record is neither the query key nor a plain
    string, the record lists after the [set] exactly the query key and the
    keys it listed before, and its TTL is the TTL of this [set], whatever it
    was before. *)
Theorem set_adds_to_the_record `{Snappy} (cache : Cache)
    (queryKey data name : string) (dependencies : list string)
    (ttlInSeconds : option Z) (st : t) :
  fits cache data ->
  0 < ttl_of cache ttlInSeconds ->
  name ∈ dependencies ->
  queryKey ≠ dependencyKey name ->
  is_string st (dependencyKey name) = false ->
  let st1 := backend (set cache queryKey data (Some dependencies) ttlInSeconds st) in
  smembers st1 (dependencyKey name)
  = {[queryKey]} ∪ smembers st (dependencyKey name) /\
  ttl st1 (dependencyKey name) = Some (ttl_of cache ttlInSeconds).
Proof.
  intros Hfit HT Hin Hne Hns st1.
  destruct (set_record cache queryKey data name dependencies ttlInSeconds st
              Hfit HT Hin Hne Hns) as [Hn Hdb].
  fold st1 in Hn, Hdb.
  assert (Hf : find st1 (dependencyKey name)
               = Some (Entry (VSet ({[queryKey]}
                                     ∪ smembers st (dependencyKey name)))
                             (Some (now st + ttl_of cache ttlInSeconds)))).
  { apply find_Some_live; [assumption | lia]. }
  unfold smembers at 1, ttl. rewrite Hf. split; [reflexivity|].
  f_equal. lia.
Qed.

Lemma set_adds_to_the_record_witness :
  let st := after (set plain "k1" "v" (Some ["users"]) (Some 100)) empty in
  let st1 := backend (set plain "k2" "w" (Some ["users"]) (Some 10) st) in
  smembers st1 "dependency:users" = {["k2"]} ∪ smembers st "dependency:users" /\
  ttl st1 "dependency:users" = Some 10.
Proof.
  apply (set_adds_to_the_record plain "k2" "w" "users" ["users"] (Some 10)
           (after (set plain "k1" "v" (Some ["users"]) (Some 100)) empty)).
  - intros Hc. discriminate Hc.
  - reflexivity.
  - apply list_elem_of_here.
  - vm_compute. discriminate.
  - vm_compute. reflexivity.
Defined.

(** X11: compression is a setting of the cache, not of the entry.  An entry
    written by a cache without compression and read, while it lives, by a
    cache with compression is handed to the decompressor; when the
    decompressor refuses the payload, [get] is rejected with its error instead
    of returning the payload. *)
Theorem get_with_compression_rejects_plain_entry `{Snappy}
    (writer reader : Cache) (queryKey data : string)
    (dependencies : option (list string)) (ttlInSeconds : option Z) (st : t)
    (d : Z) :
  compression writer = false ->
  compression reader = true ->
  uncompress data = None ->
  0 <= d < ttl_of writer ttlInSeconds ->
  let st1 := backend (set writer queryKey data dependencies ttlInSeconds st) in
  get reader queryKey (tick d st1)
  = Outcome (Rejected UncompressError) (tick d st1)
            [Single (GETBUFFER queryKey)].
Proof.
  intros Hw Hr Hrefused Hd st1. subst st1.
  assert (Hfit : fits writer data) by (intros Hc; congruence).
  assert (HT : 0 < ttl_of writer ttlInSeconds) by lia.
  rewrite set_backend by assumption.
  destruct (pipeline_stores queryKey (stored writer data)
              (ttl_of writer ttlInSeconds) HT (default [] dependencies) st)
    as [Hn Hk].
  assert (Hst : stored writer data = data)
    by (unfold stored; rewrite Hw; reflexivity).
  rewrite Hst in *.
  set (st1 := (exec _ st).1) in *.
  assert (Hf : find (tick d st1) queryKey
               = Some (Entry (VStr data)
                             (Some (now st + ttl_of writer ttlInSeconds)))).
  { apply find_Some_live; [exact Hk|]. unfold tick. cbn [now].
    rewrite Hn. lia. }
  unfold get, mbind, async_bind. rewrite Hr, call_run. simpl execute.
  rewrite Hf. cbn [fst snd result backend issued].
  rewrite Hrefused. reflexivity.
Qed.

Lemma get_with_compression_rejects_plain_entry_witness :
  let st1 := backend (set plain "k" "payload" None (Some 60) empty) in
  get small_compressing "k" (tick 1 st1)
  = Outcome (Rejected UncompressError) (tick 1 st1) [Single (GETBUFFER "k")].
Proof.
  apply (@get_with_compression_rejects_plain_entry framing
           plain small_compressing "k" "payload" None (Some 60) empty 1).
  - reflexivity.
  - reflexivity.
  - reflexivity.
  - vm_compute. split; [discriminate | reflexivity].
Defined.

(** The record of a dependency, once written by a [set] and while it lives,
    makes [invalidate] delete every key it lists. *)
Lemma invalidate_live_record (name : string) (st : t) (s : gset string) (dl : Z)
    (member : string) :
  db st !! dependencyKey name = Some (Entry (VSet s) (Some dl)) ->
  now st < dl ->
  member ∈ s ->
  let o := invalidate name st in
  result o = Fulfilled tt /\
  db (backend o) !! member = None /\
  db (backend o) !! dependencyKey name = None.
Proof.
  intros Hdb Hlive Hin o. subst o.
  pose proof (find_Some_live st _ _ _ Hdb Hlive) as Hf.
  assert (Hns : is_string st (dependencyKey name) = false)
    by (unfold is_string; rewrite Hf; reflexivity).
  destruct (invalidate_spec name st Hns) as (Hres & _ & Hspec).
  split; [assumption|]. split.
  - rewrite Hspec. unfold smembers. rewrite Hf.
    case_decide; [reflexivity | tauto].
  - rewrite Hspec. case_decide; [reflexivity | tauto].
Qed.

(** X12: registrations are never withdrawn by a later write.  If a key was
    stored under a dependency and is then stored again, whatever the payload,
    the TTL and the outcome, by a [set] that does not name that dependency, it
    is still listed in the record, and an [invalidate] of the dependency
    while the record lives deletes it. *)
Theorem overwritten_key_stays_registered `{Snappy} (cache : Cache)
    (queryKey data1 data2 name : string) (dependencies1 : list string)
    (dependencies2 : option (list string)) (ttl1 ttl2 : option Z) (st : t)
    (d : Z) :
  fits cache data1 ->
  0 < ttl_of cache ttl1 ->
  name ∈ dependencies1 ->
  queryKey ≠ dependencyKey name ->
  is_string st (dependencyKey name) = false ->
  name ∉ default [] dependencies2 ->
  0 <= d < ttl_of cache ttl1 ->
  let st1 := backend (set cache queryKey data1 (Some dependencies1) ttl1 st) in
  let st2 := backend (set cache queryKey data2 dependencies2 ttl2 st1) in
  let o := invalidate name (tick d st2) in
  queryKey ∈ smembers (tick d st2) (dependencyKey name) /\
  result o = Fulfilled tt /\
  get cache queryKey (backend o)
  = Outcome (Fulfilled Null) (backend o)
            [Single (if compression cache then GETBUFFER queryKey
                     else GET queryKey)].
Proof.
  intros Hfit HT Hin Hne Hns Hnot Hd st1 st2 o.
  destruct (set_record cache queryKey data1 name dependencies1 ttl1 st
              Hfit HT Hin Hne Hns) as [Hn1 Hdb1].
  fold st1 in Hn1, Hdb1.
  destruct (set_frame cache queryKey data2 dependencies2 ttl2 st1
              (dependencyKey name)) as [Hdb2 Hn2].
  { congruence. }
  { intros other Hother Heq. apply dependencyKey_inj in Heq. congruence. }
  fold st2 in Hdb2, Hn2.
  set (S := {[queryKey]} ∪ smembers st (dependencyKey name)) in *.
  assert (Hmem : queryKey ∈ S)
    by (apply elem_of_union; left; apply elem_of_singleton; reflexivity).
  assert (Hdb : db (tick d st2) !! dependencyKey name
                = Some (Entry (VSet S) (Some (now st + ttl_of cache ttl1)))).
  { unfold tick. cbn [db]. rewrite Hdb2. exact Hdb1. }
  assert (Hlive : now (tick d st2) < now st + ttl_of cache ttl1).
  { unfold tick. cbn [now]. rewrite Hn2, Hn1. lia. }
  split.
  - unfold smembers. rewrite (find_Some_live _ _ _ _ Hdb Hlive). exact Hmem.
  - destruct (invalidate_live_record name (tick d st2) S _ queryKey
                Hdb Hlive Hmem) as (Hres & Hgone & _).
    fold o in Hres, Hgone. split; [assumption|].
    apply get_miss. apply find_None_absent. assumption.
Qed.

Lemma overwritten_key_stays_registered_witness :
  let st1 := backend (set plain "k" "v1" (Some ["users"]) (Some 60) empty) in
  let st2 := backend (set plain "k" "v2" None (Some 600) st1) in
  let o := invalidate "users" (tick 5 st2) in
  "k" ∈ smembers (tick 5 st2) "dependency:users" /\
  result o = Fulfilled tt /\
  get plain "k" (backend o)
  = Outcome (Fulfilled Null) (backend o) [Single (GET "k")].
Proof.
  apply (overwritten_key_stays_registered plain "k" "v1" "v2" "users"
           ["users"] None (Some 60) (Some 600) empty 5).
  - intros Hc. discriminate Hc.
  - reflexivity.
  - apply list_elem_of_here.
  - vm_compute. discriminate.
  - reflexivity.
  - apply not_elem_of_nil.
  - vm_compute. split; [discriminate | reflexivity].
Defined.

(** X13: when several keys were stored under a dependency, an [invalidate]
    issued after the latest of these [set]s, and before the TTL of that
    latest [set] has run out, deletes the new key, every key the record
    listed before, and the record. *)
Theorem invalidate_deletes_earlier_registrations `{Snappy} (cache : Cache)
    (queryKey data name earlier : string) (dependencies : list string)
    (ttlInSeconds : option Z) (st : t) (d : Z) :
  fits cache data ->
  name ∈ dependencies ->
  queryKey ≠ dependencyKey name ->
  earlier ∈ smembers st (dependencyKey name) ->
  0 <= d < ttl_of cache ttlInSeconds ->
  let st1 := backend (set cache queryKey data (Some dependencies) ttlInSeconds st) in
  let o := invalidate name (tick d st1) in
  result o = Fulfilled tt /\
  db (backend o) !! earlier = None /\
  db (backend o) !! queryKey = None /\
  db (backend o) !! dependencyKey name = None.
Proof.
  intros Hfit Hin Hne Hearlier Hd st1 o.
  assert (HT : 0 < ttl_of cache ttlInSeconds) by lia.
  assert (Hns : is_string st (dependencyKey name) = false).
  { unfold is_string, smembers in *.
    destruct (find st (dependencyKey name)) as [[[x|s] dl]|]; try reflexivity.
    exfalso. exact (not_elem_of_empty _ Hearlier). }
  destruct (set_record cache queryKey data name dependencies ttlInSeconds st
              Hfit HT Hin Hne Hns) as [Hn1 Hdb1].
  fold st1 in Hn1, Hdb1.
  set (S := {[queryKey]} ∪ smembers st (dependencyKey name)) in *.
  assert (Hlive : now (tick d st1) < now st + ttl_of cache ttlInSeconds).
  { unfold tick. cbn [now]. rewrite Hn1. lia. }
  assert (Hdb : db (tick d st1) !! dependencyKey name
                = Some (Entry (VSet S) (Some (now st + ttl_of cache ttlInSeconds))))
    by exact Hdb1.
  destruct (invalidate_live_record name (tick d st1) S _ earlier Hdb Hlive)
    as (Hres & Hgone1 & Hrec).
  { apply elem_of_union. right. assumption. }
  destruct (invalidate_live_record name (tick d st1) S _ queryKey Hdb Hlive)
    as (_ & Hgone2 & _).
  { apply elem_of_union. left. apply elem_of_singleton. reflexivity. }
  fold o in Hres, Hgone1, Hgone2, Hrec. auto.
Qed.

Lemma invalidate_deletes_earlier_registrations_witness :
  let st := after (set plain "k1" "v" (Some ["users"]) (Some 10)) empty in
  let st1 := backend (set plain "k2" "w" (Some ["users"]) (Some 100) st) in
  let o := invalidate "users" (tick 50 st1) in
  result o = Fulfilled tt /\
  db (backend o) !! "k1" = None /\
  db (backend o) !! "k2" = None /\
  db (backend o) !! "dependency:users" = None.
Proof.
  apply (invalidate_deletes_earlier_registrations plain "k2" "w" "users" "k1"
           ["users"] (Some 100)
           (after (set plain "k1" "v" (Some ["users"]) (Some 10)) empty) 50).
  - intros Hc. discriminate Hc.
  - apply list_elem_of_here.
  - vm_compute. discriminate.
  - apply (bool_decide_unpack _). vm_compute. exact I.
  - vm_compute. split; [discriminate | reflexivity].
Defined.

(** [get] of a key that holds a set is refused by the backend. *)
Lemma get_wrongtype `{Snappy} (cache : Cache) (queryKey : string)
    (s : gset string) (d : option Z) (st : t) :
  find st queryKey = Some (Entry (VSet s) d) ->
  get cache queryKey st
  = Outcome (Rejected (ReplyError WRONGTYPE)) st
            [Single (if compression cache then GETBUFFER queryKey
                     else GET queryKey)].
Proof.
  intros Hf. unfold get, mbind, async_bind.
  destruct (compression cache); rewrite call_run; simpl; rewrite Hf;
    reflexivity.
Qed.

(** X3: dependency records are not readable through the cache.  After a
    [set] that names a dependency (accepted payload, positive TTL, the record
    neither the query key nor a plain string), a [get] of the key
    [dependency:<name>] while the record lives is rejected with the WRONGTYPE
    error of the backend; it is not a miss, and nothing changes. *)
Theorem get_of_a_dependency_record_is_rejected `{Snappy} (cache : Cache)
    (queryKey data name : string) (dependencies : list string)
    (ttlInSeconds : option Z) (st : t) (d : Z) :
  fits cache data ->
  name ∈ dependencies ->
  queryKey ≠ dependencyKey name ->
  is_string st (dependencyKey name) = false ->
  0 <= d < ttl_of cache ttlInSeconds ->
  let st1 := backend (set cache queryKey data (Some dependencies) ttlInSeconds st) in
  get cache (dependencyKey name) (tick d st1)
  = Outcome (Rejected (ReplyError WRONGTYPE)) (tick d st1)
            [Single (if compression cache then GETBUFFER (dependencyKey name)
                     else GET (dependencyKey name))].
Proof.
  intros Hfit Hin Hne Hns Hd st1.
  assert (HT : 0 < ttl_of cache ttlInSeconds) by lia.
  destruct (set_record cache queryKey data name dependencies ttlInSeconds st
              Hfit HT Hin Hne Hns) as [Hn1 Hdb1].
  fold st1 in Hn1, Hdb1.
  eapply get_wrongtype. apply find_Some_live; [exact Hdb1|].
  unfold tick. cbn [now]. rewrite Hn1. lia.
Qed.

Lemma get_of_a_dependency_record_is_rejected_witness :
  let st1 := backend (set plain "k2" "payload" (Some ["users"]) (Some 60) empty) in
  get plain "dependency:users" (tick 1 st1)
  = Outcome (Rejected (ReplyError WRONGTYPE)) (tick 1 st1)
            [Single (GET "dependency:users")].
Proof.
  apply (get_of_a_dependency_record_is_rejected plain "k2" "payload" "users"
           ["users"] (Some 60) empty 1).
  - intros Hc. discriminate Hc.
  - apply list_elem_of_here.
  - vm_compute. discriminate.
  - reflexivity.
  - vm_compute. split; [discriminate | reflexivity].
Defined.

(** X14: a cache key must not be the record of a dependency.  After a [set]
    whose key is [dependency:<name>] (any accepted payload, any dependency
    list, a positive TTL), and while that entry lives, [invalidate(name)] is
    rejected with the WRONGTYPE error at its first request and deletes
    nothing. *)
Theorem set_on_a_record_key_blocks_invalidate `{Snappy} (cache : Cache)
    (data name : string) (dependencies : option (list string))
    (ttlInSeconds : option Z) (st : t) (d : Z) :
  fits cache data ->
  0 <= d < ttl_of cache ttlInSeconds ->
  let st1 := backend (set cache (dependencyKey name) data dependencies
                          ttlInSeconds st) in
  invalidate name (tick d st1)
  = Outcome (Rejected (ReplyError WRONGTYPE)) (tick d st1)
            [Single (SMEMBERS (dependencyKey name))].
Proof.
  intros Hfit Hd st1. subst st1.
  assert (HT : 0 < ttl_of cache ttlInSeconds) by lia.
  apply invalidate_refused.
  rewrite set_backend by assumption.
  destruct (pipeline_stores (dependencyKey name) (stored cache data)
              (ttl_of cache ttlInSeconds) HT (default [] dependencies) st)
    as [Hn Hk].
  set (st1 := (exec _ st).1) in *.
  assert (Hf : find (tick d st1) (dependencyKey name)
               = Some (Entry (VStr (stored cache data))
                             (Some (now st + ttl_of cache ttlInSeconds)))).
  { apply find_Some_live; [exact Hk|]. unfold tick. cbn [now].
    rewrite Hn. lia. }
  unfold is_string. rewrite Hf. reflexivity.
Qed.

Lemma set_on_a_record_key_blocks_invalidate_witness :
  let st1 := backend (set plain "dependency:users" "x" (Some ["users"])
                          (Some 60) empty) in
  invalidate "users" (tick 1 st1)
  = Outcome (Rejected (ReplyError WRONGTYPE)) (tick 1 st1)
            [Single (SMEMBERS "dependency:users")].
Proof.
  apply (set_on_a_record_key_blocks_invalidate plain "x" "users"
           (Some ["users"]) (Some 60) empty 1).
  - intros Hc. discriminate Hc.
  - vm_compute. split; [discriminate | reflexivity].
Defined.

(** X15: [invalidate] is idempotent on every backend: run a second time right
    after the first, it settles the same way and leaves the backend as the
    first run left it. *)
Theorem invalidate_twice (name : string) (st : t) :
  let o1 := invalidate name st in
  let o2 := invalidate name (backend o1) in
  result o2 = result o1 /\ backend o2 = backend o1.
Proof.
  intros o1 o2. subst o2 o1.
  destruct (is_string st (dependencyKey name)) eqn:Hs.
  - rewrite (invalidate_refused name st Hs). cbn [backend result].
    rewrite (invalidate_refused name st Hs). split; reflexivity.
  - destruct (invalidate_spec name st Hs) as (Hres & _ & Hdb).
    assert (Hgone : db (backend (invalidate name st)) !! dependencyKey name
                    = None).
    { rewrite Hdb. case_decide; [reflexivity | tauto]. }
    rewrite (invalidate_absent name _ Hgone). cbn [backend result].
    split; [symmetry; assumption | reflexivity].
Qed.

(** X16: the requests of [invalidate], when the record is not a plain
    string: first SMEMBERS of the record on its own; then, when the record
    lists keys, one MULTI/EXEC transaction with a DEL per listed key followed
    by the DEL of the record, and otherwise the lone DEL of the record.  The
    read and the deletion are two separate requests. *)
Theorem invalidate_requests (name : string) (st : t) :
  is_string st (dependencyKey name) = false ->
  issued (invalidate name st)
  = [Single (SMEMBERS (dependencyKey name));
     match elements (smembers st (dependencyKey name)) with
     | [] => Single (DEL (dependencyKey name))
     | keys => Multi (map DEL keys ++ [DEL (dependencyKey name)])
     end].
Proof.
  unfold is_string, smembers, invalidate, mbind, async_bind.
  rewrite call_run. simpl.
  destruct (find st (dependencyKey name)) as [[[x|s] d]|] eqn:Hf;
    [discriminate | |]; intros _; cbn [result backend issued members fst snd].
  - destruct (elements s) as [|a l] eqn:Hel; [reflexivity|].
    change (0 <? length (a :: l))%nat with true. cbv beta iota.
    rewrite multi_exec_run. reflexivity.
  - rewrite elements_empty. reflexivity.
Qed.

Lemma invalidate_requests_witness :
  let st := after (set plain "k2" "payload" (Some ["users"]) (Some 60)) empty in
  issued (invalidate "users" st)
  = [Single (SMEMBERS "dependency:users");
     Multi [DEL "k2"; DEL "dependency:users"]].
Proof.
  apply (invalidate_requests "users"
           (after (set plain "k2" "payload" (Some ["users"]) (Some 60)) empty)).
  vm_compute. reflexivity.
Defined.

(** X17: the fallback TTL.  On a cache built by [configureCache] from
    options whose [defaultTtl] is missing or not positive, a [set] without an
    explicit TTL is fulfilled for every payload that passes the size check,
    with or without dependencies, and the entry is given 3600 seconds to
    live. *)
Theorem set_uses_the_fallback_ttl `{Snappy} (options : Config) (cache : Cache)
    (queryKey data : string) (dependencies : option (list string)) (st : t) :
  configureCache options = Some cache ->
  (forall n : Z, opt_defaultTtl options = Some n -> n <= 0) ->
  fits cache data ->
  let o := set cache queryKey data dependencies None st in
  result o = Fulfilled tt /\
  ttl (backend o) queryKey = Some 3600.
Proof.
  intros Hcfg Hopt Hfit o. subst o.
  assert (Hdef : ttl_of cache None = 3600).
  { unfold configureCache in Hcfg. destruct (redis options); [|discriminate].
    injection Hcfg as <-. unfold ttl_of. cbn [default from_option id defaultTtl].
    unfold positive_or. destruct (opt_defaultTtl options) as [n|]; [|reflexivity].
    specialize (Hopt n eq_refl).
    destruct (Z.ltb_spec 0 n); [lia | reflexivity]. }
  assert (HT : 0 < ttl_of cache None) by lia.
  split; [apply set_result; auto|].
  rewrite set_backend by assumption.
  destruct (pipeline_stores queryKey (stored cache data)
              (ttl_of cache None) HT (default [] dependencies) st)
    as [Hn Hk].
  unfold ttl. rewrite (find_Some_live _ _ _ _ Hk) by (rewrite Hn; lia).
  rewrite Hn, Hdef. f_equal. lia.
Qed.

Lemma set_uses_the_fallback_ttl_witness :
  let options := {| redis := IORedis; opt_defaultTtl := Some (-5);
                    opt_maxEntrySize := Some 10;
                    opt_compression := Some true |} in
  let o := set small_compressing "k" "short" (Some ["a"]) None empty in
  configureCache options = Some small_compressing /\
  result o = Fulfilled tt /\
  ttl (backend o) "k" = Some 3600.
Proof.
  split; [reflexivity|].
  apply (@set_uses_the_fallback_ttl framing
           {| redis := IORedis; opt_defaultTtl := Some (-5);
              opt_maxEntrySize := Some 10; opt_compression := Some true |}
           small_compressing "k" "short" (Some ["a"]) empty).
  - reflexivity.
  - intros n [= <-]. lia.
  - intros _. vm_compute. discriminate.
Defined.

(** X18: the cache exported by redisClient.ts has compression off, a default
    TTL of 3600 seconds and a size limit that is never checked: a [set] of any
    payload under any key without an explicit TTL is fulfilled, and a [get] of
    the key during the next 3600 seconds is fulfilled with that payload. *)
Theorem exported_cache_roundtrip `{Snappy} :
  exists cache : Cache,
    RedisClient.cache = Some cache /\
    compression cache = false /\
    defaultTtl cache = 3600 /\
    forall (queryKey data : string) (dependencies : option (list string))
           (st : t) (d : Z),
      0 <= d < 3600 ->
      let o := set cache queryKey data dependencies None st in
      result o = Fulfilled tt /\
      get cache queryKey (tick d (backend o))
      = Outcome (Fulfilled (Str data)) (tick d (backend o))
                [Single (GET queryKey)].
Proof.
  exists plain. split; [reflexivity|]. split; [reflexivity|].
  split; [reflexivity|].
  intros queryKey data dependencies st d Hd o. subst o.
  destruct (set_then_get plain queryKey data dependencies None st d)
    as (Hres & _ & Hget).
  - intros Hc. discriminate Hc.
  - intros Hc. discriminate Hc.
  - exact Hd.
  - split; [exact Hres | exact Hget].
Qed.

(** The two halves of [invalidate] compose to [invalidate]. *)
Lemma invalidate_split (name : string) (st : t) :
  invalidate name st
  = (queriesToInvalidate ← Steps.invalidate_read name;
     Steps.invalidate_delete name queriesToInvalidate) st.
Proof.
  unfold invalidate, Steps.invalidate_read, Steps.invalidate_delete,
    mbind, async_bind, mret, async_ret.
  rewrite call_run. cbn [result backend issued].
  destruct (execute (SMEMBERS (dependencyKey name)) st) as [st' [e|v]];
    cbn [fst snd result backend issued]; [reflexivity|].
  destruct (0 <? length (members v))%nat; reflexivity.
Qed.

Lemma invalidate_read_run (name : string) (st : t) :
  is_string st (dependencyKey name) = false ->
  Steps.invalidate_read name st
  = Outcome (Fulfilled (elements (smembers st (dependencyKey name)))) st
            [Single (SMEMBERS (dependencyKey name))].
Proof.
  unfold is_string, smembers, Steps.invalidate_read, mbind, async_bind,
    mret, async_ret.
  rewrite call_run. simpl.
  destruct (find st (dependencyKey name)) as [[[x|s] d]|];
    [discriminate | |]; intros _; cbn [result backend issued members].
  - reflexivity.
  - rewrite elements_empty. reflexivity.
Qed.

Lemma invalidate_delete_run (name : string) (queries : list string) (st : t) :
  let o := Steps.invalidate_delete name queries st in
  result o = Fulfilled tt /\
  now (backend o) = now st /\
  forall k : string,
    db (backend o) !! k
    = if decide (k ∈ queries \/ k = dependencyKey name)
      then None else db st !! k.
Proof.
  unfold Steps.invalidate_delete, mbind, async_bind, mret, async_ret.
  destruct queries as [|a l].
  - change (0 <? length (@nil string))%nat with false. cbv beta iota zeta.
    rewrite call_run. simpl.
    split; [reflexivity|]. split; [reflexivity|]. intros k.
    destruct (decide (k = dependencyKey name)) as [->|Hne].
    + rewrite lookup_delete_eq. case_decide; [reflexivity | tauto].
    + rewrite lookup_delete_ne by congruence.
      case_decide as Hk; [|reflexivity].
      destruct Hk as [Hk|Hk]; [|contradiction].
      apply elem_of_nil in Hk. contradiction.
  - change (0 <? length (a :: l))%nat with true. cbv beta iota zeta.
    rewrite multi_exec_run. cbn [result backend issued].
    split; [reflexivity|]. split; [apply exec_now|].
    intros k. apply exec_del_batch.
Qed.

(** X19: [invalidate] is not atomic.  When a [set] that stores a new key
    under the dependency runs between the read and the deletion of an
    [invalidate] of that dependency, the deletion works from the member list
    read before: the new key stays cached, but the record of the dependency
    is deleted together with the registration just made.  The key is then no
    longer registered under that dependency, and a later [invalidate] of the
    dependency leaves it in place. *)
Theorem set_between_the_awaits_of_invalidate `{Snappy} (cache : Cache)
    (queryKey data name : string) (dependencies : list string)
    (ttlInSeconds : option Z) (st : t) (d : Z) :
  fits cache data ->
  name ∈ dependencies ->
  queryKey ≠ dependencyKey name ->
  is_string st (dependencyKey name) = false ->
  queryKey ∉ smembers st (dependencyKey name) ->
  0 <= d < ttl_of cache ttlInSeconds ->
  let queries := elements (smembers st (dependencyKey name)) in
  let st1 := backend (set cache queryKey data (Some dependencies) ttlInSeconds st) in
  let o := Steps.invalidate_delete name queries st1 in
  let entry := Entry (VStr (stored cache data))
                     (Some (now st + ttl_of cache ttlInSeconds)) in
  Steps.invalidate_read name st
  = Outcome (Fulfilled queries) st [Single (SMEMBERS (dependencyKey name))] /\
  result o = Fulfilled tt /\
  queryKey ∈ smembers st1 (dependencyKey name) /\
  db (backend o) !! dependencyKey name = None /\
  (queryKey ∉ smembers (tick d (backend o)) (dependencyKey name)) /\
  find (tick d (backend o)) queryKey = Some entry /\
  find (backend (invalidate name (tick d (backend o)))) queryKey = Some entry.
Proof.
  intros Hfit Hin Hne Hns Hnew Hd queries st1 o entry.
  assert (HT : 0 < ttl_of cache ttlInSeconds) by lia.
  split; [apply invalidate_read_run; assumption|].
  destruct (invalidate_delete_run name queries st1) as (Hres & Hn & Hdb).
  fold o in Hres, Hn, Hdb.
  split; [assumption|].
  split; [apply set_registers; assumption|].
  assert (Hrec : db (backend o) !! dependencyKey name = None).
  { rewrite Hdb. case_decide; [reflexivity | tauto]. }
  split; [assumption|].
  split.
  { unfold smembers. rewrite (find_None_absent (tick d (backend o)) _ Hrec).
    apply not_elem_of_empty. }
  assert (Hst1 : now st1 = now st /\ db st1 !! queryKey = Some entry).
  { subst st1. rewrite set_backend by assumption.
    apply (pipeline_stores queryKey (stored cache data)
             (ttl_of cache ttlInSeconds) HT). }
  destruct Hst1 as [Hn1 Hk1].
  assert (Hk : db (backend o) !! queryKey = Some entry).
  { rewrite Hdb. case_decide as Hq; [|assumption].
    destruct Hq as [Hq|Hq]; [|contradiction].
    subst queries. apply elem_of_elements in Hq. contradiction. }
  assert (Hf : find (tick d (backend o)) queryKey = Some entry).
  { apply find_Some_live; [exact Hk|]. unfold tick. cbn [now].
    rewrite Hn, Hn1. lia. }
  split; [assumption|].
  rewrite (invalidate_absent name (tick d (backend o))) by exact Hrec.
  exact Hf.
Qed.

Lemma set_between_the_awaits_of_invalidate_witness :
  let st := after (set plain "k1" "v" (Some ["users"]) (Some 60)) empty in
  let queries := elements (smembers st "dependency:users") in
  let st1 := backend (set plain "k2" "w" (Some ["users"]) (Some 60) st) in
  let o := Steps.invalidate_delete "users" queries st1 in
  let entry := Entry (VStr "w") (Some (now st + 60)) in
  Steps.invalidate_read "users" st
  = Outcome (Fulfilled queries) st [Single (SMEMBERS "dependency:users")] /\
  result o = Fulfilled tt /\
  "k2" ∈ smembers st1 "dependency:users" /\
  db (backend o) !! "dependency:users" = None /\
  ("k2" ∉ smembers (tick 1 (backend o)) "dependency:users") /\
  find (tick 1 (backend o)) "k2" = Some entry /\
  find (backend (invalidate "users" (tick 1 (backend o)))) "k2" = Some entry.
Proof.
  apply (set_between_the_awaits_of_invalidate plain "k2" "w" "users"
           ["users"] (Some 60)
           (after (set plain "k1" "v" (Some ["users"]) (Some 60)) empty) 1).
  - intros Hc. discriminate Hc.
  - apply list_elem_of_here.
  - vm_compute. discriminate.
  - vm_compute. reflexivity.
  - apply (bool_decide_unpack _). vm_compute. exact I.
  - vm_compute. split; [discriminate | reflexivity].
Defined.

End Behaviour.
